(** * keras_retinanet/losses.py: focal and smooth-L1 losses with a trainable
    uncertainty scalar

  The two loss constructors [focal] and [smooth_l1] of
  [keras_retinanet/losses.py] are embedded line by line.

  Number model.  The source computes in float32; here a scalar is a real
  number and every backend operation is the exact real function it rounds
  (exp, log, erf, sqrt, abs, max, pow).  So the development speaks about
  the formulas of the program, not about rounding, overflow or NaN.  The
  two places where a backend operation has no real value are written out
  at [Backend.pow] and [Backend.log].  Where a statement
  depends on how float32 rounds a subtraction, the rounded subtraction of
  [Float32] is used and named in the statement; where it depends on a
  float staying finite or on Python's float power, the range is a
  hypothesis of the statement.

  Shape model.  A tensor of rank 3 is a list of lists of rows; the
  documented shapes (B, N, C+1) for [y_true] and (B, N, C) for [y_pred]
  are the predicate [shape3], and the theorems about returned values
  assume them: on other shapes TensorFlow raises or broadcasts, which the
  list functions below do not imitate.

  Effects.  A [tf.Variable] lives in a store of variables; creating one
  appends to the store, a loss function reads it.  Python's
  [ZeroDivisionError] (raised by [1.0 / sigma_squared] when [sigma] is 0)
  is an error result. *)

From Stdlib Require Import String Reals Lra Lia Bool Arith List.
Import ListNotations.
Open Scope R_scope.

(** ** Scalar operations of the backend *)

Module Backend.

(** [keras.backend.less], [greater], [equal], [not_equal] on one element. *)
Definition less (x y : R) : bool := if Rlt_dec x y then true else false.
Definition greater (x y : R) : bool := if Rlt_dec y x then true else false.
Definition equal (x y : R) : bool := if Req_dec_T x y then true else false.
Definition not_equal (x y : R) : bool := negb (equal x y).

(** [x ** y] on tensors ([tf.pow], C [powf]).  [pow x 0] is 1 for every
    [x]; for positive [x] it is [exp (y * ln x)]; [pow 0 y] is 0 for
    positive [y]; for negative [x] and an integer [y] it is the signed
    integer power.  Two cases have no real value: a zero base with a
    negative exponent (an infinity) and a negative base with an exponent
    that is not an integer (NaN).  The model gives 0 there, and every
    theorem that depends on the value of a power has a base and an
    exponent outside these two cases. *)
Definition is_integer (y : R) : bool :=
  if Req_dec_T (frac_part y) 0 then true else false.

Definition pow (x y : R) : R :=
  if Req_dec_T y 0 then 1
  else if Rlt_dec 0 x then Rpower x y
  else if Req_dec_T x 0 then 0
  else if is_integer y then powerRZ x (Int_part y)
  else 0.

(** [keras.backend.log]: the natural logarithm.  On an argument that is not
    positive the float result is NaN or -inf, where [ln] is 0; the
    arguments of [log] in the two losses are positive on the inputs of
    the theorems that use its value. *)
Definition log (x : R) : R := ln x.

(** [keras.backend.epsilon()], the fuzz factor 1e-7. *)
Definition epsilon : R := 1e-7.

(** [tf.clip_by_value]. *)
Definition clip_by_value (x lo hi : R) : R := Rmin (Rmax x lo) hi.

(** [keras.backend.binary_crossentropy(target, output)] with
    [from_logits=False], on one element, as the TensorFlow 2 backend
    computes it from probabilities: the output is clipped to
    [epsilon, 1 - epsilon] and
    [bce = -(target * log(output + epsilon)
             + (1 - target) * log(1 - output + epsilon))]. *)
Definition binary_crossentropy (target output : R) : R :=
  let output := clip_by_value output epsilon (1 - epsilon) in
  let bce := target * log (output + epsilon) in
  let bce := bce + (1 - target) * log (1 - output + epsilon) in
  - bce.

(** The integrand of the error function. *)
Definition gauss (t : R) : R := exp (- (t * t)).

Lemma gauss_continuous : continuity gauss.
Proof.
  unfold gauss.
  apply (continuity_comp (fun t => - (t * t)) exp).
  - apply continuity_opp.
    apply continuity_mult; apply derivable_continuous, derivable_id.
  - apply derivable_continuous, derivable_exp.
Qed.

Lemma gauss_integrable (a b : R) : Riemann_integrable gauss a b.
Proof.
  destruct (Rle_dec a b) as [Hab | Hab].
  - apply continuity_implies_RiemannInt;
      [exact Hab | intros; apply gauss_continuous].
  - apply RiemannInt_P1, continuity_implies_RiemannInt;
      [lra | intros; apply gauss_continuous].
Defined.

(** [tf.math.erf]: erf x = 2/sqrt(pi) * integral of exp(-t^2) from 0 to x. *)
Definition erf (x : R) : R :=
  2 / sqrt PI * RiemannInt (gauss_integrable 0 x).

End Backend.

(** ** Tensors *)

Module Tensor.

(** A row along the last axis, a matrix of rows, a batch of matrices. *)
Definition tensor1 := list R.
Definition tensor2 := list tensor1.
Definition tensor3 := list tensor2.

(** [shape3 t B N C]: [t] has shape (B, N, C). *)
Definition shape2 (m : tensor2) (N C : nat) : Prop :=
  length m = N /\ Forall (fun r : tensor1 => length r = C) m.
Definition shape3 (t : tensor3) (B N C : nat) : Prop :=
  length t = B /\ Forall (fun m => shape2 m N C) t.

(** [t[:, :, :-1]]: every row without its last entry. *)
Definition slice_init (t : tensor3) : tensor3 :=
  map (map (@removelast R)) t.

(** [t[:, :, -1]]: the last entry of every row, a (B, N) tensor.  Python
    raises on an empty row; [shape3 t B N (S C)] excludes it. *)
Definition slice_last (t : tensor3) : tensor2 :=
  map (map (fun r : tensor1 => last r 0)) t.

(** Elementwise operations on a tensor of rank 2. *)
Fixpoint zip_with {A B C : Type} (f : A -> B -> C)
                  (l : list A) (l' : list B) : list C :=
  match l, l' with
  | x :: t, y :: t' => f x y :: zip_with f t t'
  | _, _ => []
  end.

Definition map2d {A B : Type} (f : A -> B) (m : list (list A))
  : list (list B) := map (map f) m.

Definition zip2d {A B C : Type} (f : A -> B -> C)
  (m : list (list A)) (m' : list (list B)) : list (list C) :=
  zip_with (zip_with f) m m'.

(** [tf.where(cond)] on a rank-2 condition: the coordinates (b, n) of the
    true entries, in row-major order. *)
Fixpoint where_row (n : nat) (row : list bool) : list nat :=
  match row with
  | [] => []
  | c :: row' => (if c then [n] else []) ++ where_row (S n) row'
  end.

Fixpoint where_from (b : nat) (cond : list (list bool)) : list (nat * nat) :=
  match cond with
  | [] => []
  | row :: cond' => map (pair b) (where_row 0 row) ++ where_from (S b) cond'
  end.

Definition tf_where (cond : list (list bool)) : list (nat * nat) :=
  where_from 0 cond.

(** [tf.gather_nd(t, indices)] with indices of depth 2 on a rank-3 tensor:
    the row [t[b][n]] for each index (b, n).  (Out of range TensorFlow
    raises on CPU; [shape3] for both tensors excludes it.) *)
Definition gather_nd (t : tensor3) (indices : list (nat * nat)) : tensor2 :=
  map (fun i : nat * nat => nth (snd i) (nth (fst i) t []) []) indices.

(** [tf.where(cond, x, y)] on tensors of one shape. *)
Definition where3 (cond : list (list bool)) (x y : tensor2) : tensor2 :=
  zip2d (fun (c : bool) (xy : R * R) => if c then fst xy else snd xy)
        cond (zip2d pair x y).

(** [keras.backend.sum] over all entries. *)
Definition sum1 (r : tensor1) : R := fold_right Rplus 0 r.
Definition sum (m : tensor2) : R := sum1 (map sum1 m).

(** [keras.backend.shape(x)[0]]. *)
Definition shape0 {A : Type} (x : list A) : nat := length x.

End Tensor.

(** ** Variables and effects *)

Module Eff.

(** A [tf.Variable] of shape []. *)
Record variable := Var {
  var_name : string;
  var_value : R;
  var_trainable : bool
}.

(** The variables created so far, in creation order; a reference to a
    variable is its position. *)
Definition store := list variable.
Definition ref := nat.

Inductive error :=
| ZeroDivisionError   (* Python: float division by zero *)
| DanglingRef.        (* a reference outside the store; Python has none *)

Inductive result (A : Type) :=
| Ok (a : A)
| Raise (e : error).
Arguments Ok {A} a.
Arguments Raise {A} e.

(** Computations that read and extend the store and may raise. *)
Definition M (A : Type) := store -> result A * store.

Definition ret {A : Type} (a : A) : M A := fun st => (Ok a, st).

Definition bind {A B : Type} (m : M A) (k : A -> M B) : M B :=
  fun st =>
    match m st with
    | (Ok a, st') => k a st'
    | (Raise e, st') => (Raise e, st')
    end.

Definition raise {A : Type} (e : error) : M A := fun st => (Raise e, st).

(** [tf.Variable(name=..., initial_value=..., trainable=...)]: a new
    variable, at the end of the store. *)
Definition tf_Variable (name : string) (initial_value : R) (trainable : bool)
  : M ref :=
  fun st => (Ok (length st), st ++ [Var name initial_value trainable]).

(** Reading a variable where a tensor is expected. *)
Definition read (r : ref) : M R :=
  fun st =>
    match nth_error st r with
    | Some v => (Ok (var_value v), st)
    | None => (Raise DanglingRef, st)
    end.

(** The optimizer's step on one variable: the only writer of a variable's
    value, outside this file of the program. *)
Definition assign (r : ref) (x : R) (st : store) : store :=
  match nth_error st r with
  | Some v => firstn r st ++ [Var (var_name v) x (var_trainable v)]
                ++ skipn (S r) st
  | None => st
  end.

(** Python's [x / y] on floats. *)
Definition py_div (x y : R) : M R :=
  if Req_dec_T y 0 then raise ZeroDivisionError else ret (x / y).

End Eff.

Declare Scope eff_scope.
Notation "x <- m ;; k" := (Eff.bind m (fun x => k))
(at level 61, m at next level, right associativity) : eff_scope.
Open Scope eff_scope.

(** ** The loss functions *)

Module Losses.
Import Tensor Eff.

(** A loss function: ground truth, prediction, and a scalar result. *)
Definition loss_function := tensor3 -> tensor3 -> M R.

(** *** focal *)

(** Lines 60-61: [alpha_factor]. *)
Definition focal_alpha_factor (alpha cutoff : R) (labels : tensor2)
  : tensor2 :=
  let alpha_factor :=
    map2d (fun one => one * alpha) (map2d (fun _ : R => 1) labels) in
  where3 (map2d (fun l => Backend.greater l cutoff) labels)
         alpha_factor (map2d (fun a => 1 - a) alpha_factor).

(** Lines 63-67: the first [focal_weight], scaled by the uncertainty. *)
Definition focal_weight_sigma (cutoff sigma : R)
  (labels classification : tensor2) : tensor2 :=
  where3 (map2d (fun l => Backend.greater l cutoff) labels)
         (map2d (fun c => Backend.pow (1 - c) (exp (- sigma))
                            * exp (- 0.5 * sigma)) classification)
         (map2d (fun c => Backend.pow (1 - (1 - c)) (exp (- sigma))
                            * exp (- 0.5 * sigma)) classification).

(** Lines 60-68: [focal_weight = alpha_factor * focal_weight ** gamma]. *)
Definition focal_weight (alpha gamma cutoff sigma : R)
  (labels classification : tensor2) : tensor2 :=
  let alpha_factor := focal_alpha_factor alpha cutoff labels in
  let focal_weight := focal_weight_sigma cutoff sigma labels classification in
  zip2d Rmult alpha_factor
        (map2d (fun w => Backend.pow w gamma) focal_weight).

(** Lines 70-71: [cross_entropy]. *)
Definition cross_entropy (sigma : R) (labels classification : tensor2)
  : tensor2 :=
  map2d (fun e => e * exp (- sigma) + sigma / 2.0)
        (zip2d Backend.binary_crossentropy labels classification).

(** Lines 76-78: the normalizer of [_focal]. *)
Definition focal_normalizer (anchor_state : tensor2) : R :=
  let normalizer :=
    tf_where (map2d (fun a => Backend.equal a 1) anchor_state) in
  let normalizer := INR (shape0 normalizer) in
  Rmax 1.0 normalizer.

(** The inner function [_focal] of [focal], closed over [alpha], [gamma],
    [cutoff] and the variable [sigma_var]. *)
Definition _focal (alpha gamma cutoff : R) (sigma_var : ref)
  : loss_function := fun y_true y_pred =>
  sigma <- read sigma_var ;;
  let labels := slice_init y_true in
  let anchor_state := slice_last y_true in
  let classification := y_pred in
  (* filter out "ignore" anchors *)
  let indices :=
    tf_where (map2d (fun a => Backend.not_equal a (-1)) anchor_state) in
  let labels := gather_nd labels indices in
  let classification := gather_nd classification indices in
  (* compute the focal loss *)
  let focal_weight :=
    focal_weight alpha gamma cutoff sigma labels classification in
  let cross_entropy := cross_entropy sigma labels classification in
  let cls_loss := zip2d Rmult focal_weight cross_entropy in
  (* compute the normalizer: the number of positive anchors *)
  let normalizer := focal_normalizer anchor_state in
  ret (sum cls_loss / normalizer).

(** [focal(alpha, gamma, cutoff, sigma_var)]; [None] is Python's [None]. *)
Definition focal (alpha gamma cutoff : R) (sigma_var : option ref)
  : M (loss_function * ref) :=
  sigma_var <-
    match sigma_var with
    | None => tf_Variable "sigma_sq_focal"%string 0 true
    | Some v => ret v
    end ;;
  ret (_focal alpha gamma cutoff sigma_var, sigma_var).

(** The defaults of [focal]: alpha=0.1, gamma=2.0, cutoff=0.5. *)
Definition default_alpha : R := 0.1.
Definition default_gamma : R := 2.0.
Definition default_cutoff : R := 0.5.

(** *** smooth_l1 *)

(** Line 124: [factor]. *)
Definition smooth_l1_factor (sigma : R) : R := 1.0 / (2.0 * exp sigma).

(** Line 129: the value of [tf.where] below the threshold, on one entry
    [d] of [regression_diff]. *)
Definition quadratic_branch (sigma d : R) : R :=
  let factor := smooth_l1_factor sigma in
  factor * Backend.pow d 2 + 0.5 * sigma.

(** Lines 130-143: the value of [tf.where] at and above the threshold, on
    one entry [d] of [regression_diff]; [slope] is [- 1.0 / sigma_squared]. *)
Definition log_branch (sigma_squared slope sigma d : R) : R :=
  let factor := smooth_l1_factor sigma in
  slope * Backend.log (1.0 - Backend.erf (sqrt factor / sigma_squared)) * d
  + Backend.log (1.0 - Backend.erf (sqrt factor / sigma_squared))
  + factor / (sigma_squared ^ 2)
  + 0.5 * sigma.

(** Lines 125-144: [regression_diff] and [regression_loss].  The two
    Python divisions by [sigma_squared] raise when it is 0. *)
Definition regression_loss (sigma_squared sigma : R)
  (regression regression_target : tensor2) : M tensor2 :=
  let regression_diff := zip2d Rminus regression regression_target in
  let regression_diff := map2d Rabs regression_diff in
  threshold <- py_div 1.0 sigma_squared ;;
  slope <- py_div (- 1.0) sigma_squared ;;
  ret (where3 (map2d (fun d => Backend.less d threshold) regression_diff)
              (map2d (quadratic_branch sigma) regression_diff)
              (map2d (log_branch sigma_squared slope sigma) regression_diff)).

(** Lines 147-148: the normalizer of [_smooth_l1], the integer maximum of
    1 and the number of gathered indices, cast to float. *)
Definition smooth_l1_normalizer (indices : list (nat * nat)) : R :=
  let normalizer := Nat.max 1 (shape0 indices) in
  INR normalizer.

(** The inner function [_smooth_l1] of [smooth_l1], closed over
    [sigma_squared] and the variable [sigma_var]. *)
Definition _smooth_l1 (sigma_squared : R) (sigma_var : ref)
  : loss_function := fun y_true y_pred =>
  sigma <- read sigma_var ;;
  (* separate target and state *)
  let regression := y_pred in
  let regression_target := slice_init y_true in
  let anchor_state := slice_last y_true in
  (* filter out "ignore" anchors *)
  let indices :=
    tf_where (map2d (fun a => Backend.equal a 1) anchor_state) in
  let regression := gather_nd regression indices in
  let regression_target := gather_nd regression_target indices in
  (* compute smooth L1 loss *)
  regression_loss <-
    regression_loss sigma_squared sigma regression regression_target ;;
  (* compute the normalizer: the number of positive anchors *)
  let normalizer := smooth_l1_normalizer indices in
  ret (sum regression_loss / normalizer).

(** [smooth_l1(sigma, sigma_var)].  [sigma ** 2] is the exact square here.
    Python squares a float with rounding: the square of a nonzero [sigma]
    is 0.0 when it underflows (as for 1e-200) and the power raises
    OverflowError when it overflows (as for 1e200).  What is proved about
    the inner function is therefore stated on [sigma_squared], the value
    it is closed over. *)
Definition smooth_l1 (sigma : R) (sigma_var : option ref)
  : M (loss_function * ref) :=
  let sigma_squared := sigma ^ 2 in
  sigma_var <-
    match sigma_var with
    | None => tf_Variable "sigma_sq_smooth_l1"%string 0 true
    | Some v => ret v
    end ;;
  ret (_smooth_l1 sigma_squared sigma_var, sigma_var).

(** The default of [smooth_l1]: sigma=3.0. *)
Definition default_sigma : R := 3.0.

End Losses.

(** ** Entry-wise reading of the stages of [_focal] *)

Module Entry.

(** One entry of [alpha_factor] (lines 60-61). *)
Definition alpha_factor (alpha cutoff l : R) : R :=
  if Backend.greater l cutoff then 1 * alpha else 1 - 1 * alpha.

(** One entry of the first [focal_weight] (lines 63-67). *)
Definition focal_weight_sigma (cutoff sigma l c : R) : R :=
  if Backend.greater l cutoff
  then Backend.pow (1 - c) (exp (- sigma)) * exp (- 0.5 * sigma)
  else Backend.pow (1 - (1 - c)) (exp (- sigma)) * exp (- 0.5 * sigma).

(** One entry of [alpha_factor * focal_weight ** gamma] (line 68). *)
Definition focal_weight (alpha gamma cutoff sigma l c : R) : R :=
  alpha_factor alpha cutoff l
  * Backend.pow (focal_weight_sigma cutoff sigma l c) gamma.

(** One entry of [cross_entropy] (lines 70-71). *)
Definition cross_entropy (sigma l c : R) : R :=
  Backend.binary_crossentropy l c * exp (- sigma) + sigma / 2.0.

(** One entry of [cls_loss] (line 73). *)
Definition cls_loss (alpha gamma cutoff sigma l c : R) : R :=
  focal_weight alpha gamma cutoff sigma l c * cross_entropy sigma l c.

(** One entry of [regression_loss] (lines 125-144), from the entries [p] of
    [regression] and [t] of [regression_target]. *)
Definition regression_loss (sigma_squared sigma p t : R) : R :=
  let d := Rabs (p - t) in
  if Backend.less d (1.0 / sigma_squared)
  then Losses.quadratic_branch sigma d
  else Losses.log_branch sigma_squared (- 1.0 / sigma_squared) sigma d.

End Entry.

(** ** Float32 subtraction

    The source subtracts in float32.  Where a statement depends on the
    rounding of a subtraction, the difference is rounded as IEEE-754
    binary32 rounds it: to the nearest number with a 24-bit significand,
    ties to the even significand, with the exponent not below -126 (the
    subnormal numbers).  Overflow is left out: the numbers rounded here lie
    in [-1, 1]. *)

Module Float32.

(** The nearest integer, ties to even. *)
Definition round_half_even (y : R) : Z :=
  let n := Int_part y in
  let f := frac_part y in
  if Rlt_dec f (/ 2) then n
  else if Rlt_dec (/ 2) f then (n + 1)%Z
  else if Z.even n then n else (n + 1)%Z.

(** The exponent of the binade of [x]: floor(log2 |x|), and -126 for 0 and
    the subnormal numbers. *)
Definition exponent (x : R) : Z :=
  if Req_dec_T x 0 then (-126)%Z
  else Z.max (Int_part (ln (Rabs x) / ln 2)) (-126).

(** The unit in the last place of the binade of [x]. *)
Definition ulp (x : R) : R := powerRZ 2 (exponent x - 23).

(** [x] rounded to float32. *)
Definition round (x : R) : R :=
  IZR (round_half_even (x / ulp x)) * ulp x.

(** [x - y] on float32 tensors: the exact difference, rounded. *)
Definition sub (x y : R) : R := round (x - y).

(** One entry of the first [focal_weight] (lines 63-67) with the
    subtractions of the two bases as float32 performs them. *)
Definition focal_weight_sigma (cutoff sigma l c : R) : R :=
  if Backend.greater l cutoff
  then Backend.pow (sub 1 c) (exp (- sigma)) * exp (- 0.5 * sigma)
  else Backend.pow (sub 1 (sub 1 c)) (exp (- sigma)) * exp (- 0.5 * sigma).

End Float32.

(** ** Anchors, as the claims speak of them *)

Section Anchors.
Import Tensor.

(** Two nested lists with the same outer length and the same row lengths. *)
Definition same_rows {X Y : Type} (m : list (list X)) (t : list (list Y))
  : Prop := Forall2 (fun r r' => length r = length r') m t.

(** The entries of [m] where the mask [r] is true. *)
Definition masked {A : Type} (r : list bool) (m : list A) : list A :=
  map snd (filter fst (combine r m)).

(** The indices that [_focal] keeps (line 55): anchors that are not ignored. *)
Definition focal_indices (y_true : tensor3) : list (nat * nat) :=
  tf_where (map2d (fun a => Backend.not_equal a (-1)) (slice_last y_true)).

(** The indices that [_smooth_l1] keeps (line 117): positive anchors. *)
Definition smooth_l1_indices (y_true : tensor3) : list (nat * nat) :=
  tf_where (map2d (fun a => Backend.equal a 1) (slice_last y_true)).

(** The anchors of a batch, in row-major order: the row of [y_true] (targets
    or labels, then the state) with the row of [y_pred] at the same
    position. *)
Definition anchors (y_true y_pred : tensor3) : list (tensor1 * tensor1) :=
  combine (concat y_true) (concat y_pred).

(** The state of an anchor, and the test for the positive-object marker. *)
Definition state (a : tensor1 * tensor1) : R := last (fst a) 0.
Definition positive (a : tensor1 * tensor1) : bool :=
  Backend.equal (state a) 1.

(** The test that keeps an anchor in [_focal]: its state is not the
    ignore marker -1. *)
Definition unignored (a : tensor1 * tensor1) : bool :=
  Backend.not_equal (state a) (-1).

(** A prediction that is right with full confidence: 1 where the label
    exceeds the cutoff, 0 elsewhere. *)
Definition confident (cutoff label pred : R) : Prop :=
  if Backend.greater label cutoff then pred = 1 else pred = 0.

(** The number of anchors with state 1 in the whole anchor-state channel. *)
Definition count_positive (anchor_state : tensor2) : nat :=
  length (filter (fun a => Backend.equal a 1) (concat anchor_state)).

(** Every entry of a tensor satisfies [P]. *)
Definition all2 (P : R -> Prop) (m : tensor2) : Prop := Forall (Forall P) m.
Definition all3 (P : R -> Prop) (t : tensor3) : Prop := Forall (all2 P) t.

End Anchors.

(** ** The decimal constants of the source *)

Section Decimals.

Lemma dec_one : 1.0 = 1.
Proof. lra. Qed.

Lemma dec_two : 2.0 = 2.
Proof. lra. Qed.

Lemma dec_three : 3.0 = 3.
Proof. lra. Qed.

Lemma dec_half : 0.5 = / 2.
Proof. lra. Qed.

Lemma dec_tenth : 0.1 = / 10.
Proof. lra. Qed.

Lemma dec_neg_one : -1.0 = - (1).
Proof. lra. Qed.

Lemma dec_neg_half : -0.5 = - / 2.
Proof. lra. Qed.

End Decimals.

Ltac decimals :=
  rewrite ?dec_one, ?dec_two, ?dec_three, ?dec_half, ?dec_tenth,
    ?dec_neg_one, ?dec_neg_half.

(** ** Lists: zipping and mapping *)

Section ZipWith.
Import Tensor.
Context {A B C D E : Type}.

Lemma zip_with_ext (f g : A -> B -> C) (l : list A) (l' : list B) :
  (forall x y, f x y = g x y) -> zip_with f l l' = zip_with g l l'.
Proof.
  intros H. revert l'.
  induction l as [|x l IH]; intros [|y l']; simpl; try reflexivity.
  now rewrite H, IH.
Qed.

Lemma zip_with_map_l (f : C -> B -> D) (g : A -> C) l l' :
  zip_with f (map g l) l' = zip_with (fun x y => f (g x) y) l l'.
Proof.
  revert l'. induction l as [|x l IH]; intros [|y l']; simpl; try reflexivity.
  now rewrite IH.
Qed.

Lemma zip_with_map_r (f : A -> C -> D) (g : B -> C) l l' :
  zip_with f l (map g l') = zip_with (fun x y => f x (g y)) l l'.
Proof.
  revert l'. induction l as [|x l IH]; intros [|y l']; simpl; try reflexivity.
  now rewrite IH.
Qed.

Lemma map_zip_with (f : C -> D) (g : A -> B -> C) l l' :
  map f (zip_with g l l') = zip_with (fun x y => f (g x y)) l l'.
Proof.
  revert l'. induction l as [|x l IH]; intros [|y l']; simpl; try reflexivity.
  now rewrite IH.
Qed.

Lemma zip_with_zip_with (f : C -> D -> E) (g : A -> B -> C) (h : A -> B -> D)
      l l' :
  zip_with f (zip_with g l l') (zip_with h l l')
  = zip_with (fun x y => f (g x y) (h x y)) l l'.
Proof.
  revert l'. induction l as [|x l IH]; intros [|y l']; simpl; try reflexivity.
  now rewrite IH.
Qed.

Lemma zip_with_same (f : C -> D -> E) (g : A -> C) (h : A -> D) l :
  zip_with f (map g l) (map h l) = map (fun x => f (g x) (h x)) l.
Proof.
  induction l as [|x l IH]; simpl; [reflexivity | now rewrite IH].
Qed.

End ZipWith.

Section ZipWithMore.
Import Tensor.
Context {A B C D : Type}.

Lemma zip_with_zip_r (f : A -> C -> D) (g : A -> B -> C) l l' :
  zip_with f l (zip_with g l l') = zip_with (fun x y => f x (g x y)) l l'.
Proof.
  revert l'. induction l as [|x l IH]; intros [|y l']; simpl; try reflexivity.
  now rewrite IH.
Qed.

End ZipWithMore.

(** The same on tensors of rank 2. *)

Section Zip2d.
Import Tensor.
Context {A B C D E : Type}.

Lemma zip2d_ext (f g : A -> B -> C) m m' :
  (forall x y, f x y = g x y) -> zip2d f m m' = zip2d g m m'.
Proof.
  intros H. unfold zip2d. apply zip_with_ext.
  intros r r'. now apply zip_with_ext.
Qed.

Lemma map2d_map2d (f : B -> C) (g : A -> B) m :
  map2d f (map2d g m) = map2d (fun x => f (g x)) m.
Proof.
  unfold map2d. rewrite map_map. apply map_ext. intros r. apply map_map.
Qed.

Lemma zip2d_map2d_l (f : C -> B -> D) (g : A -> C) m m' :
  zip2d f (map2d g m) m' = zip2d (fun x y => f (g x) y) m m'.
Proof.
  unfold zip2d, map2d. rewrite zip_with_map_l. apply zip_with_ext.
  intros r r'. apply zip_with_map_l.
Qed.

Lemma zip2d_map2d_r (f : A -> C -> D) (g : B -> C) m m' :
  zip2d f m (map2d g m') = zip2d (fun x y => f x (g y)) m m'.
Proof.
  unfold zip2d, map2d. rewrite zip_with_map_r. apply zip_with_ext.
  intros r r'. apply zip_with_map_r.
Qed.

Lemma map2d_zip2d (f : C -> D) (g : A -> B -> C) m m' :
  map2d f (zip2d g m m') = zip2d (fun x y => f (g x y)) m m'.
Proof.
  unfold zip2d, map2d. rewrite map_zip_with. apply zip_with_ext.
  intros r r'. apply map_zip_with.
Qed.

Lemma zip2d_zip2d (f : C -> D -> E) (g : A -> B -> C) (h : A -> B -> D)
      m m' :
  zip2d f (zip2d g m m') (zip2d h m m')
  = zip2d (fun x y => f (g x y) (h x y)) m m'.
Proof.
  unfold zip2d. rewrite zip_with_zip_with. apply zip_with_ext.
  intros r r'. apply zip_with_zip_with.
Qed.

Lemma zip2d_zip_r (f : A -> C -> D) (g : A -> B -> C) m m' :
  zip2d f m (zip2d g m m') = zip2d (fun x y => f x (g x y)) m m'.
Proof.
  unfold zip2d. rewrite zip_with_zip_r. apply zip_with_ext.
  intros r r'. apply zip_with_zip_r.
Qed.

Lemma zip2d_same (f : C -> D -> E) (g : A -> C) (h : A -> D) m :
  zip2d f (map2d g m) (map2d h m) = map2d (fun x => f (g x) (h x)) m.
Proof.
  unfold zip2d, map2d. rewrite zip_with_same. apply map_ext.
  intros r. apply zip_with_same.
Qed.

End Zip2d.

(** ** The stages of the losses, entry by entry *)

Section Stages.
Import Tensor Eff.

Lemma where3_map2d {A B : Type} (c : A -> bool) (f g : B -> R) m m' :
  where3 (map2d c m) (map2d f m') (map2d g m')
  = zip2d (fun x y => if c x then f y else g y) m m'.
Proof.
  unfold where3. rewrite zip2d_same, zip2d_map2d_l, zip2d_map2d_r.
  now apply zip2d_ext.
Qed.

Lemma where3_map2d_same {A : Type} (c : A -> bool) (f g : A -> R) m :
  where3 (map2d c m) (map2d f m) (map2d g m)
  = map2d (fun x => if c x then f x else g x) m.
Proof.
  unfold where3. now rewrite zip2d_same, zip2d_same.
Qed.

Lemma focal_alpha_factor_entries alpha cutoff labels :
  Losses.focal_alpha_factor alpha cutoff labels
  = map2d (Entry.alpha_factor alpha cutoff) labels.
Proof.
  unfold Losses.focal_alpha_factor. cbv zeta.
  rewrite !map2d_map2d, where3_map2d_same. reflexivity.
Qed.

Lemma focal_weight_sigma_entries cutoff sigma labels classification :
  Losses.focal_weight_sigma cutoff sigma labels classification
  = zip2d (Entry.focal_weight_sigma cutoff sigma) labels classification.
Proof.
  unfold Losses.focal_weight_sigma. now rewrite where3_map2d.
Qed.

Lemma focal_weight_entries alpha gamma cutoff sigma labels classification :
  Losses.focal_weight alpha gamma cutoff sigma labels classification
  = zip2d (Entry.focal_weight alpha gamma cutoff sigma) labels classification.
Proof.
  unfold Losses.focal_weight. cbv zeta.
  rewrite focal_alpha_factor_entries, focal_weight_sigma_entries.
  rewrite map2d_zip2d, zip2d_map2d_l, zip2d_zip_r. reflexivity.
Qed.

Lemma cross_entropy_entries sigma labels classification :
  Losses.cross_entropy sigma labels classification
  = zip2d (Entry.cross_entropy sigma) labels classification.
Proof.
  unfold Losses.cross_entropy. now rewrite map2d_zip2d.
Qed.

Lemma cls_loss_entries alpha gamma cutoff sigma labels classification :
  zip2d Rmult
        (Losses.focal_weight alpha gamma cutoff sigma labels classification)
        (Losses.cross_entropy sigma labels classification)
  = zip2d (Entry.cls_loss alpha gamma cutoff sigma) labels classification.
Proof.
  rewrite focal_weight_entries, cross_entropy_entries, zip2d_zip2d.
  reflexivity.
Qed.

End Stages.

(** ** [tf.where] followed by [tf.gather_nd] is a filter *)

Section Gather.
Import Tensor.
Context {A : Type}.

Lemma where_row_nth (d : A) (r : list bool) :
  forall (m pre : list A),
    length r = length m ->
    map (fun n => nth n (pre ++ m) d) (where_row (length pre) r)
    = masked r m.
Proof.
  induction r as [|c r IH]; intros [|x m] pre Hlen; simpl in *;
    try reflexivity; try discriminate.
  injection Hlen as Hlen.
  rewrite map_app.
  replace (S (length pre)) with (length (pre ++ [x]))
    by (rewrite length_app; simpl; lia).
  replace (pre ++ x :: m) with ((pre ++ [x]) ++ m)
    by (now rewrite <- app_assoc).
  rewrite (IH m (pre ++ [x]) Hlen).
  unfold masked. destruct c; simpl; [|reflexivity].
  f_equal. rewrite <- app_assoc. simpl. apply nth_middle.
Qed.

Lemma where_from_nth (d : A) (mask : list (list bool)) :
  forall (t pre : list (list A)),
    same_rows mask t ->
    map (fun i : nat * nat => nth (snd i) (nth (fst i) (pre ++ t) []) d)
        (where_from (length pre) mask)
    = concat (zip_with masked mask t).
Proof.
  induction mask as [|r mask IH]; intros t pre H; inversion H as [|? m ? t' Hr Ht];
    subst; simpl; [reflexivity|].
  rewrite map_app, map_map. simpl.
  replace (S (length pre)) with (length (pre ++ [m]))
    by (rewrite length_app; simpl; lia).
  replace (pre ++ m :: t') with ((pre ++ [m]) ++ t')
    by (now rewrite <- app_assoc).
  rewrite (IH t' (pre ++ [m]) Ht). f_equal.
  rewrite <- app_assoc. simpl. rewrite nth_middle.
  apply (where_row_nth d r m [] Hr).
Qed.

Lemma masked_app (r r' : list bool) (m m' : list A) :
  length r = length m ->
  masked (r ++ r') (m ++ m') = masked r m ++ masked r' m'.
Proof.
  intros H. unfold masked.
  revert m H. induction r as [|c r IH]; intros [|x m] H; simpl in *;
    try discriminate; [reflexivity|].
  injection H as H. destruct c; simpl; now rewrite IH.
Qed.

Lemma concat_masked (mask : list (list bool)) (t : list (list A)) :
  same_rows mask t ->
  concat (zip_with masked mask t) = masked (concat mask) (concat t).
Proof.
  induction 1 as [|r m mask t Hr Ht IH]; simpl; [reflexivity|].
  now rewrite masked_app, IH.
Qed.

Lemma masked_map {X : Type} (c : X -> bool) (xs : list X) (m : list A) :
  masked (map c xs) m
  = map snd (filter (fun a => c (fst a)) (combine xs m)).
Proof.
  unfold masked. revert m.
  induction xs as [|x xs IH]; intros [|y m]; simpl; try reflexivity.
  destruct (c x); simpl; now rewrite IH.
Qed.

End Gather.

Section WhereCount.
Import Tensor.

Lemma length_where_row (r : list bool) :
  forall n, length (where_row n r) = length (filter (fun c : bool => c) r).
Proof.
  induction r as [|c r IH]; intros n; simpl; [reflexivity|].
  rewrite length_app, IH. now destruct c.
Qed.

Lemma length_where_from (mask : list (list bool)) :
  forall b,
    length (where_from b mask)
    = length (filter (fun c : bool => c) (concat mask)).
Proof.
  induction mask as [|r mask IH]; intros b; simpl; [reflexivity|].
  rewrite length_app, length_map, IH, length_where_row.
  now rewrite filter_app, length_app.
Qed.

Lemma gather_nd_where (t : tensor3) (mask : list (list bool)) :
  same_rows mask t ->
  gather_nd t (tf_where mask) = masked (concat mask) (concat t).
Proof.
  intros H. unfold gather_nd, tf_where.
  rewrite <- (concat_masked mask t H).
  exact (where_from_nth [] mask t [] H).
Qed.

End WhereCount.

(** ** What the two inner functions return *)

Section Evaluation.
Import Tensor Eff.

Lemma read_ok (st : store) (r : ref) (v : variable) :
  nth_error st r = Some v -> read r st = (Ok (var_value v), st).
Proof. intros H. unfold read. now rewrite H. Qed.

Lemma py_div_ok (x y : R) (st : store) :
  y <> 0 -> py_div x y st = (Ok (x / y), st).
Proof.
  intros H. unfold py_div. now destruct (Req_dec_T y 0).
Qed.

Lemma py_div_zero (x : R) (st : store) :
  py_div x 0 st = (Raise ZeroDivisionError, st).
Proof.
  unfold py_div. destruct (Req_dec_T 0 0) as [_|H]; [reflexivity | now elim H].
Qed.

Lemma _focal_eval alpha gamma cutoff sigma_var y_true y_pred st v :
  nth_error st sigma_var = Some v ->
  Losses._focal alpha gamma cutoff sigma_var y_true y_pred st
  = (Ok (sum (zip2d (Entry.cls_loss alpha gamma cutoff (var_value v))
                    (gather_nd (slice_init y_true) (focal_indices y_true))
                    (gather_nd y_pred (focal_indices y_true)))
         / Losses.focal_normalizer (slice_last y_true)), st).
Proof.
  intros H. unfold Losses._focal, bind. rewrite (read_ok _ _ _ H).
  cbv zeta. rewrite cls_loss_entries. reflexivity.
Qed.

Lemma regression_loss_eval sigma_squared sigma regression regression_target st :
  sigma_squared <> 0 ->
  Losses.regression_loss sigma_squared sigma regression regression_target st
  = (Ok (zip2d (Entry.regression_loss sigma_squared sigma)
               regression regression_target), st).
Proof.
  intros H. unfold Losses.regression_loss, bind. cbv zeta.
  rewrite !(py_div_ok _ _ _ H).
  rewrite where3_map2d_same, map2d_map2d, map2d_zip2d. reflexivity.
Qed.

Lemma _smooth_l1_eval sigma_squared sigma_var y_true y_pred st v :
  nth_error st sigma_var = Some v ->
  sigma_squared <> 0 ->
  Losses._smooth_l1 sigma_squared sigma_var y_true y_pred st
  = (Ok (sum (zip2d (Entry.regression_loss sigma_squared (var_value v))
                    (gather_nd y_pred (smooth_l1_indices y_true))
                    (gather_nd (slice_init y_true) (smooth_l1_indices y_true)))
         / INR (Nat.max 1 (length (smooth_l1_indices y_true)))), st).
Proof.
  intros H Hs. unfold Losses._smooth_l1, bind. rewrite (read_ok _ _ _ H).
  cbv zeta. rewrite (regression_loss_eval _ _ _ _ _ Hs). reflexivity.
Qed.

Lemma _smooth_l1_zero sigma_var y_true y_pred st v :
  nth_error st sigma_var = Some v ->
  Losses._smooth_l1 0 sigma_var y_true y_pred st
  = (Raise ZeroDivisionError, st).
Proof.
  intros H. unfold Losses._smooth_l1, bind. rewrite (read_ok _ _ _ H).
  cbv zeta. unfold Losses.regression_loss, bind. cbv zeta.
  now rewrite py_div_zero.
Qed.

End Evaluation.

(** ** Counting the kept anchors *)

Section Counting.
Import Tensor Eff.

Lemma concat_map2d {A B : Type} (f : A -> B) (m : list (list A)) :
  concat (map2d f m) = map f (concat m).
Proof. unfold map2d. now rewrite concat_map. Qed.

Lemma filter_true_map {A : Type} (c : A -> bool) (l : list A) :
  filter (fun b : bool => b) (map c l) = map c (filter c l).
Proof.
  induction l as [|x l IH]; simpl; [reflexivity|].
  destruct (c x) eqn:E; simpl; rewrite ?E, IH; reflexivity.
Qed.

Lemma length_tf_where_map2d {A : Type} (c : A -> bool) (m : list (list A)) :
  length (tf_where (map2d c m)) = length (filter c (concat m)).
Proof.
  unfold tf_where.
  now rewrite length_where_from, concat_map2d, filter_true_map, length_map.
Qed.

Lemma filter_none {A : Type} (c : A -> bool) (l : list A) :
  Forall (fun x => c x = false) l -> filter c l = [].
Proof.
  induction 1 as [|x l Hx _ IH]; simpl; [reflexivity|]. now rewrite Hx.
Qed.

Lemma Forall_concat {A : Type} (P : A -> Prop) (m : list (list A)) :
  Forall (Forall P) m -> Forall P (concat m).
Proof.
  induction 1 as [|r m Hr _ IH]; simpl; [constructor|].
  apply Forall_app. now split.
Qed.

Lemma tf_where_none {A : Type} (c : A -> bool) (m : list (list A)) :
  Forall (Forall (fun x => c x = false)) m -> tf_where (map2d c m) = [].
Proof.
  intros H. apply length_zero_iff_nil.
  rewrite length_tf_where_map2d, filter_none; [reflexivity|].
  now apply Forall_concat.
Qed.

Lemma all2_impl (P Q : R -> Prop) (m : tensor2) :
  (forall x, P x -> Q x) -> all2 P m -> all2 Q m.
Proof.
  intros H Hm. unfold all2 in *.
  eapply Forall_impl; [|exact Hm]. intros r. now apply Forall_impl.
Qed.

Lemma focal_normalizer_count (anchor_state : tensor2) :
  Losses.focal_normalizer anchor_state
  = if (count_positive anchor_state <? 1)%nat then 1
    else INR (count_positive anchor_state).
Proof.
  unfold Losses.focal_normalizer, shape0, count_positive. cbv zeta.
  rewrite length_tf_where_map2d.
  set (k := length _).
  destruct (Nat.ltb_spec k 1) as [Hk|Hk].
  - replace k with 0%nat by lia. simpl. rewrite dec_one. apply Rmax_left. lra.
  - rewrite dec_one. apply Rmax_right. replace 1 with (INR 1) by reflexivity.
    now apply le_INR.
Qed.

Lemma equal_true (x y : R) : Backend.equal x y = true <-> x = y.
Proof.
  unfold Backend.equal. destruct (Req_dec_T x y); split; congruence.
Qed.

Lemma equal_false (x y : R) : Backend.equal x y = false <-> x <> y.
Proof.
  unfold Backend.equal. destruct (Req_dec_T x y); split; congruence.
Qed.

Lemma greater_false (x y : R) : ~ y < x -> Backend.greater x y = false.
Proof.
  intros H. unfold Backend.greater. now destruct (Rlt_dec y x).
Qed.

Lemma less_true (x y : R) : Backend.less x y = true <-> x < y.
Proof.
  unfold Backend.less. destruct (Rlt_dec x y); split; intros; congruence.
Qed.

End Counting.

(** ** The constructors and the store *)

Section Constructors.
Import Tensor Eff.

Lemma read_assign (st : store) (r : ref) (x : R) (v : variable) :
  nth_error st r = Some v ->
  read r (assign r x st) = (Ok x, assign r x st).
Proof.
  intros H. unfold read, assign. rewrite H.
  assert (Hr : (r < length st)%nat) by (apply nth_error_Some; congruence).
  rewrite nth_error_app2; rewrite length_firstn, Nat.min_l by lia; [|lia].
  now rewrite Nat.sub_diag.
Qed.

(** C9. Each constructor returns the pair of the inner loss function and
    the variable [sigma_var].  Without a [sigma_var] argument a new
    variable is appended to the store: its reference was not in the store
    before, it is trainable, its value reads as 0, and the loss function
    returned is the inner function closed over that same reference, so
    that a value the optimizer assigns to the returned variable later is
    the value the loss function reads.  With a [sigma_var] argument the
    store is left as it is and the argument is both returned and closed
    over. *)
Theorem constructors_return_loss_and_sigma_var :
  forall (st : store),
    (forall alpha gamma cutoff,
        let fresh := Var "sigma_sq_focal" 0 true in
        Losses.focal alpha gamma cutoff None st
        = (Ok (Losses._focal alpha gamma cutoff (length st), length st),
           st ++ [fresh])
        /\ nth_error st (length st) = None
        /\ nth_error (st ++ [fresh]) (length st) = Some fresh
        /\ read (length st) (st ++ [fresh]) = (Ok 0, st ++ [fresh])
        /\ (forall x,
               let st' := assign (length st) x (st ++ [fresh]) in
               read (length st) st' = (Ok x, st')))
    /\ (forall alpha gamma cutoff v,
           Losses.focal alpha gamma cutoff (Some v) st
           = (Ok (Losses._focal alpha gamma cutoff v, v), st))
    /\ (forall sigma,
           let fresh := Var "sigma_sq_smooth_l1" 0 true in
           Losses.smooth_l1 sigma None st
           = (Ok (Losses._smooth_l1 (sigma ^ 2) (length st), length st),
              st ++ [fresh])
           /\ nth_error st (length st) = None
           /\ nth_error (st ++ [fresh]) (length st) = Some fresh
           /\ read (length st) (st ++ [fresh]) = (Ok 0, st ++ [fresh])
           /\ (forall x,
                  let st' := assign (length st) x (st ++ [fresh]) in
                  read (length st) st' = (Ok x, st')))
    /\ (forall sigma v,
           Losses.smooth_l1 sigma (Some v) st
           = (Ok (Losses._smooth_l1 (sigma ^ 2) v, v), st)).
Proof.
  intros st.
  assert (Hnone : nth_error st (length st) = None)
    by (apply nth_error_None; lia).
  assert (Hsome : forall x : variable,
             nth_error (st ++ [x]) (length st) = Some x).
  { intros x. rewrite nth_error_app2 by lia.
    now rewrite Nat.sub_diag. }
  assert (Hread : forall v : variable,
             read (length st) (st ++ [v]) = (Ok (var_value v), st ++ [v])).
  { intros v. apply read_ok, Hsome. }
  assert (Hassign : forall (v : variable) (x : R),
             read (length st) (assign (length st) x (st ++ [v]))
             = (Ok x, assign (length st) x (st ++ [v]))).
  { intros v x. apply (read_assign _ _ _ v), Hsome. }
  repeat split; try exact Hnone; try apply Hsome; try apply Hassign.
  - apply (Hread (Var "sigma_sq_focal" 0 true)).
  - apply (Hread (Var "sigma_sq_smooth_l1" 0 true)).
Qed.

(** C10. Evaluating a loss function returned by either constructor leaves
    the store as it was, whatever the input tensors and whether the result
    is a value or an error: the value of [sigma_var] after the call is its
    value before. *)
Theorem loss_evaluation_keeps_sigma_var :
  forall (st0 st1 : store) (loss : Losses.loss_function) (sigma_var : ref),
    (exists alpha gamma cutoff arg,
        Losses.focal alpha gamma cutoff arg st0 = (Ok (loss, sigma_var), st1))
    \/ (exists sigma arg,
           Losses.smooth_l1 sigma arg st0 = (Ok (loss, sigma_var), st1)) ->
    forall (y_true y_pred : tensor3) (st : store),
      snd (loss y_true y_pred st) = st
      /\ nth_error (snd (loss y_true y_pred st)) sigma_var
         = nth_error st sigma_var.
Proof.
  intros st0 st1 loss sigma_var H y_true y_pred st.
  assert (Hst : snd (loss y_true y_pred st) = st).
  { destruct H as [(alpha & gamma & cutoff & arg & H) | (sigma & arg & H)].
    - assert (loss = Losses._focal alpha gamma cutoff sigma_var) as ->.
      { destruct arg; unfold Losses.focal, bind, ret, tf_Variable in H;
          now inversion H. }
      unfold Losses._focal, bind, read, ret.
      now destruct (nth_error st sigma_var).
    - assert (loss = Losses._smooth_l1 (sigma ^ 2) sigma_var) as ->.
      { destruct arg; unfold Losses.smooth_l1, bind, ret, tf_Variable in H;
          now inversion H. }
      unfold Losses._smooth_l1, Losses.regression_loss, bind, read, ret,
        py_div, raise.
      destruct (nth_error st sigma_var); [|reflexivity].
      cbv zeta. now destruct (Req_dec_T (sigma ^ 2) 0). }
  split; [exact Hst | now rewrite Hst].
Qed.

Lemma loss_evaluation_keeps_sigma_var_witness :
  let st1 := [Var "sigma_sq_focal" 0 true] in
  snd (Losses._focal (1 / 10) 2 (5 / 10) 0%nat [[[1; 1]]] [[[5 / 10]]] st1) = st1
  /\ nth_error
       (snd (Losses._focal (1 / 10) 2 (5 / 10) 0%nat [[[1; 1]]] [[[5 / 10]]] st1))
       0%nat
     = nth_error st1 0%nat.
Proof.
  intros st1.
  apply (loss_evaluation_keeps_sigma_var
           [] st1 (Losses._focal (1 / 10) 2 (5 / 10) 0%nat) 0%nat).
  left. exists (1 / 10), 2, (5 / 10), None. reflexivity.
Defined.

End Constructors.

(** ** Batches without a positive anchor, and the normalizer *)

Section Normalizer.
Import Tensor Eff.

Lemma smooth_l1_normalizer_none (y_true : tensor3) :
  all2 (fun a => a <> 1) (slice_last y_true) ->
  smooth_l1_indices y_true = [].
Proof.
  intros H. unfold smooth_l1_indices. apply tf_where_none.
  eapply Forall_impl; [|exact H]. intros r. apply Forall_impl.
  intros a. apply equal_false.
Qed.

(** C1, as amended. In a batch of the documented shape in which every
    anchor state is -1, the normalizer of [_focal] is 1 and [_focal]
    returns exactly 0.  In a batch in which no anchor state is 1, the
    normalizer of [_smooth_l1] is 1 and [_smooth_l1] returns exactly 0,
    provided the [sigma_squared] it is closed over is not 0 (else
    [1.0 / sigma_squared] raises ZeroDivisionError) and not above 1e150 in
    absolute value (far above, [sigma_squared ** 2.0] raises
    OverflowError in Python, which the real-number power here does not).
    Neither call changes the store. *)
Theorem no_positive_anchor_loss_is_zero :
  forall (st : store) (sigma_var : ref) (v : variable),
    nth_error st sigma_var = Some v ->
    (forall alpha gamma cutoff B N C y_true y_pred,
        shape3 y_true B N (S C) -> shape3 y_pred B N C ->
        all2 (fun a => a = -1) (slice_last y_true) ->
        Losses.focal_normalizer (slice_last y_true) = 1
        /\ Losses._focal alpha gamma cutoff sigma_var y_true y_pred st
           = (Ok 0, st))
    /\ (forall sigma_squared B N C y_true y_pred,
           sigma_squared <> 0 ->
           Rabs sigma_squared <= 1e150 ->
           shape3 y_true B N (S C) -> shape3 y_pred B N C ->
           all2 (fun a => a <> 1) (slice_last y_true) ->
           Losses.smooth_l1_normalizer (smooth_l1_indices y_true) = 1
           /\ Losses._smooth_l1 sigma_squared sigma_var y_true y_pred st
              = (Ok 0, st)).
Proof.
  intros st sigma_var v Hv. split.
  - intros alpha gamma cutoff B N C y_true y_pred _ _ Hall.
    assert (Hn : Losses.focal_normalizer (slice_last y_true) = 1).
    { rewrite focal_normalizer_count. unfold count_positive.
      rewrite filter_none; [reflexivity|].
      apply Forall_concat. eapply all2_impl; [|exact Hall].
      intros a ->. apply equal_false. lra. }
    split; [exact Hn|].
    rewrite (_focal_eval _ _ _ _ _ _ _ _ Hv), Hn.
    unfold focal_indices. rewrite tf_where_none.
    + simpl. f_equal. f_equal. unfold sum, sum1. simpl. field.
    + eapply all2_impl; [|exact Hall].
      intros a ->. unfold Backend.not_equal.
      now rewrite (proj2 (equal_true (-1) (-1)) eq_refl).
  - intros sigma_squared B N C y_true y_pred Hs _ _ _ Hall.
    assert (Hn : Losses.smooth_l1_normalizer (smooth_l1_indices y_true) = 1).
    { unfold Losses.smooth_l1_normalizer.
      rewrite (smooth_l1_normalizer_none _ Hall). simpl. lra. }
    split; [exact Hn|].
    rewrite (_smooth_l1_eval _ _ _ _ _ _ Hv Hs).
    rewrite (smooth_l1_normalizer_none _ Hall).
    simpl. f_equal. f_equal. unfold sum, sum1. simpl. field.
Qed.

Lemma no_positive_anchor_loss_is_zero_witness :
  let st := [Eff.Var "sigma_var" 0 true] in
  Losses._focal (1 / 10) 2 (5 / 10) 0%nat
                [[[1; 0; -1]; [0; 0; -1]]] [[[7 / 10; 1 / 10]; [0; 1]]] st
  = (Ok 0, st)
  /\ Losses._smooth_l1 9 0%nat
                       [[[0; 0; 0; 0; -1]; [1; 2; 3; 4; 0]]]
                       [[[1; 1; 1; 1]; [0; 0; 0; 0]]] st
     = (Ok 0, st).
Proof.
  intros st.
  destruct (no_positive_anchor_loss_is_zero st 0%nat
              (Eff.Var "sigma_var" 0 true) eq_refl) as [Hf Hs].
  split.
  - apply (Hf (1 / 10) 2 (5 / 10) 1%nat 2%nat 2%nat).
    + split; [reflexivity|]. repeat constructor.
    + split; [reflexivity|]. repeat constructor.
    + repeat constructor.
  - apply (Hs 9 1%nat 2%nat 4%nat).
    + lra.
    + rewrite Rabs_right by lra. lra.
    + split; [reflexivity|]. repeat constructor.
    + split; [reflexivity|]. repeat constructor.
    + repeat constructor; simpl; lra.
Defined.

(** C1, where the claim fails: with [sigma = 0] the Python division
    [1.0 / sigma_squared] raises, so on a batch whose only anchor is
    ignored [_smooth_l1] does not return 0. *)
Lemma smooth_l1_sigma_zero_raises :
  let y_true := [[[0; 0; 0; 0; -1]]] in
  let y_pred := [[[0; 0; 0; 0]]] in
  shape3 y_true 1 1 5 /\ shape3 y_pred 1 1 4
  /\ all2 (fun a => a <> 1) (slice_last y_true)
  /\ exists loss sigma_var st,
      Losses.smooth_l1 0 None [] = (Ok (loss, sigma_var), st)
      /\ loss y_true y_pred st = (Raise ZeroDivisionError, st)
      /\ fst (loss y_true y_pred st) <> Ok 0.
Proof.
  intros y_true y_pred.
  split; [split; [reflexivity | repeat constructor]|].
  split; [split; [reflexivity | repeat constructor]|].
  split; [repeat constructor; simpl; lra|].
  exists (Losses._smooth_l1 (0 ^ 2) 0%nat), 0%nat,
    [Var "sigma_sq_smooth_l1" 0 true].
  split; [reflexivity|].
  assert (H : Losses._smooth_l1 (0 ^ 2) 0%nat y_true y_pred
                [Var "sigma_sq_smooth_l1" 0 true]
              = (Raise ZeroDivisionError, [Var "sigma_sq_smooth_l1" 0 true])).
  { replace (0 ^ 2) with 0 by ring. now apply (_smooth_l1_zero 0%nat) with
      (v := Var "sigma_sq_smooth_l1" 0 true). }
  split; [exact H|]. rewrite H. discriminate.
Qed.

(** C6. On every input of the documented shape the normalizer of [_focal]
    is the number of anchors of the whole batch whose state is 1, counted in
    the unfiltered anchor-state channel, replaced by 1 when that number is
    below 1; and the value returned is the sum of the entries of [cls_loss]
    (one per label of each anchor that is not ignored) divided by it. *)
Theorem focal_divides_by_positive_count :
  forall (st : store) (sigma_var : ref) (v : variable)
         alpha gamma cutoff B N C y_true y_pred,
    nth_error st sigma_var = Some v ->
    shape3 y_true B N (S C) -> shape3 y_pred B N C ->
    let positives := count_positive (slice_last y_true) in
    let normalizer := if (positives <? 1)%nat then 1 else INR positives in
    let cls_loss :=
      zip2d (Entry.cls_loss alpha gamma cutoff (var_value v))
            (gather_nd (slice_init y_true) (focal_indices y_true))
            (gather_nd y_pred (focal_indices y_true)) in
    Losses.focal_normalizer (slice_last y_true) = normalizer
    /\ Losses._focal alpha gamma cutoff sigma_var y_true y_pred st
       = (Ok (sum cls_loss / normalizer), st).
Proof.
  intros st sigma_var v alpha gamma cutoff B N C y_true y_pred Hv _ _.
  cbv zeta. split; [apply focal_normalizer_count|].
  rewrite (_focal_eval _ _ _ _ _ _ _ _ Hv), focal_normalizer_count.
  reflexivity.
Qed.

End Normalizer.

(** ** Real-number facts about the backend operations *)

Section BackendFacts.

Lemma ln_upper (x : R) : 0 < x -> ln x <= x - 1.
Proof.
  intros Hx. pose proof (exp_ineq1_le (ln x)) as H.
  rewrite (exp_ln x Hx) in H. lra.
Qed.

Lemma ln_lower (x : R) : 0 < x -> 1 - / x <= ln x.
Proof.
  intros Hx. assert (Hi : 0 < / x) by now apply Rinv_0_lt_compat.
  pose proof (ln_upper (/ x) Hi) as H.
  rewrite (ln_Rinv x Hx) in H. lra.
Qed.

Lemma pow_zero_exponent (x : R) : Backend.pow x 0 = 1.
Proof.
  unfold Backend.pow. destruct (Req_dec_T 0 0) as [_|H]; [reflexivity|].
  now elim H.
Qed.

Lemma pow_nonneg (x y : R) : 0 <= x -> 0 <= Backend.pow x y.
Proof.
  intros Hx. unfold Backend.pow.
  destruct (Req_dec_T y 0); [lra|].
  destruct (Rlt_dec 0 x); [left; unfold Rpower; apply exp_pos|].
  destruct (Req_dec_T x 0); lra.
Qed.

Lemma pow_pos (x y : R) : 0 < x -> 0 < Backend.pow x y.
Proof.
  intros Hx. unfold Backend.pow.
  destruct (Req_dec_T y 0); [lra|].
  destruct (Rlt_dec 0 x); [|contradiction].
  unfold Rpower. apply exp_pos.
Qed.

Lemma pow_two (x : R) : 0 <= x -> Backend.pow x 2 = x * x.
Proof.
  intros Hx. unfold Backend.pow.
  destruct (Req_dec_T 2 0); [lra|].
  destruct (Rlt_dec 0 x) as [Hp|Hn].
  - replace 2 with (INR 2) by (simpl; lra).
    rewrite (Rpower_pow 2 x Hp). ring.
  - destruct (Req_dec_T x 0) as [->|Hx0]; [ring | lra].
Qed.

Lemma is_integer_one : Backend.is_integer 1 = true /\ Int_part 1 = 1%Z.
Proof.
  destruct (Int_part_frac_part_spec 1 1 0) as [Hi Hf]; [lra | lra |].
  split; [|now rewrite <- Hi].
  unfold Backend.is_integer. rewrite <- Hf.
  destruct (Req_dec_T 0 0) as [_|H]; [reflexivity | now elim H].
Qed.

Lemma pow_one (x : R) : Backend.pow x 1 = x.
Proof.
  unfold Backend.pow.
  destruct (Req_dec_T 1 0); [lra|].
  destruct (Rlt_dec 0 x) as [Hp|Hn]; [now apply Rpower_1|].
  destruct (Req_dec_T x 0) as [->|Hx]; [reflexivity|].
  destruct is_integer_one as [-> ->]. simpl. ring.
Qed.

Lemma pow_zero_base (y : R) : 0 < y -> Backend.pow 0 y = 0.
Proof.
  intros Hy. unfold Backend.pow.
  destruct (Req_dec_T y 0); [lra|].
  destruct (Rlt_dec 0 0); [lra|].
  destruct (Req_dec_T 0 0) as [_|H]; [reflexivity | now elim H].
Qed.

Lemma epsilon_bounds : 0 < Backend.epsilon < / 2.
Proof. unfold Backend.epsilon. lra. Qed.

Lemma clip_by_value_bounds (x lo hi : R) :
  lo <= hi -> lo <= Backend.clip_by_value x lo hi <= hi.
Proof.
  intros H. unfold Backend.clip_by_value. split.
  - apply Rmin_glb; [apply Rmax_r | exact H].
  - apply Rmin_r.
Qed.

Lemma clip_by_value_inside (x lo hi : R) :
  lo <= x <= hi -> Backend.clip_by_value x lo hi = x.
Proof.
  intros [H1 H2]. unfold Backend.clip_by_value.
  rewrite (Rmax_left x lo H1). now apply Rmin_left.
Qed.

Lemma binary_crossentropy_nonneg (t o : R) :
  0 <= t <= 1 -> 0 <= Backend.binary_crossentropy t o.
Proof.
  intros Ht. unfold Backend.binary_crossentropy, Backend.log. cbv zeta.
  pose proof epsilon_bounds as He.
  assert (Hc := clip_by_value_bounds o Backend.epsilon (1 - Backend.epsilon)).
  set (c := Backend.clip_by_value o _ _) in *.
  assert (Hc' : Backend.epsilon <= c <= 1 - Backend.epsilon) by (apply Hc; lra).
  assert (H1 := ln_upper (c + Backend.epsilon)).
  assert (H2 := ln_upper (1 - c + Backend.epsilon)).
  assert (H1' : ln (c + Backend.epsilon) <= 0) by (apply Rle_trans with
    (c + Backend.epsilon - 1); [apply H1; lra | lra]).
  assert (H2' : ln (1 - c + Backend.epsilon) <= 0) by (apply Rle_trans with
    (1 - c + Backend.epsilon - 1); [apply H2; lra | lra]).
  nra.
Qed.

End BackendFacts.

(** ** Sums over tensors *)

Section Sums.
Import Tensor.

Lemma sum1_scal (k : R) (r : tensor1) :
  sum1 (map (Rmult k) r) = k * sum1 r.
Proof.
  unfold sum1. induction r as [|x r IH]; simpl; [ring|]. rewrite IH. ring.
Qed.

Lemma sum_scal (k : R) (m : tensor2) :
  sum (map2d (Rmult k) m) = k * sum m.
Proof.
  unfold sum, map2d. rewrite map_map.
  induction m as [|r m IH]; simpl; [ring|].
  rewrite sum1_scal. unfold sum1 in *. simpl. rewrite IH. ring.
Qed.

Lemma sum1_nonneg (r : tensor1) : Forall (fun x => 0 <= x) r -> 0 <= sum1 r.
Proof.
  unfold sum1. induction 1 as [|x r Hx _ IH]; simpl; lra.
Qed.

Lemma sum_nonneg (m : tensor2) : all2 (fun x => 0 <= x) m -> 0 <= sum m.
Proof.
  unfold sum, all2. intros H. apply sum1_nonneg.
  induction H as [|r m Hr _ IH]; simpl; constructor;
    [now apply sum1_nonneg | exact IH].
Qed.

Lemma zip_with_Forall {A : Type} (P : A -> Prop) (Q : R -> Prop)
      (f : A -> R -> R) (r : list A) (r' : list R) :
  (forall x y, P x -> Q y -> 0 <= f x y) ->
  Forall P r -> Forall Q r' -> Forall (fun z => 0 <= z) (zip_with f r r').
Proof.
  intros Hf Hr. revert r'.
  induction Hr as [|x r Hx _ IH]; intros r' Hr'; simpl; [constructor|].
  destruct Hr' as [|y r' Hy Hr']; constructor; [now apply Hf | now apply IH].
Qed.

Lemma zip2d_nonneg (P Q : R -> Prop) (f : R -> R -> R) (m m' : tensor2) :
  (forall x y, P x -> Q y -> 0 <= f x y) ->
  all2 P m -> all2 Q m' -> all2 (fun z => 0 <= z) (zip2d f m m').
Proof.
  intros Hf Hm. unfold all2, zip2d in *. revert m'.
  induction Hm as [|r m Hr _ IH]; intros m' Hm'; simpl; [constructor|].
  destruct Hm' as [|r' m' Hr' Hm']; constructor;
    [now apply (zip_with_Forall P Q) | now apply IH].
Qed.

Lemma gather_nd_all (P : R -> Prop) (t : tensor3) (indices : list (nat * nat)) :
  all3 P t -> all2 P (gather_nd t indices).
Proof.
  intros Ht. unfold gather_nd, all2. apply Forall_map.
  apply Forall_forall. intros [b n] _. simpl.
  assert (Hb : all2 P (nth b t [])).
  { destruct (nth_in_or_default b t []) as [Hin | ->]; [|constructor].
    unfold all3 in Ht. rewrite Forall_forall in Ht. now apply Ht. }
  destruct (nth_in_or_default n (nth b t []) []) as [Hin | ->]; [|constructor].
  unfold all2 in Hb. rewrite Forall_forall in Hb. now apply Hb.
Qed.

End Sums.

(** ** Rounding to float32 *)

Section Float32Facts.

Lemma round_half_even_error (y : R) :
  Rabs (IZR (Float32.round_half_even y) - y) <= / 2.
Proof.
  unfold Float32.round_half_even. cbv zeta.
  pose proof (base_fp y) as [Hf0 Hf1].
  assert (Hy : y = IZR (Int_part y) + frac_part y)
    by (unfold frac_part; ring).
  set (n := Int_part y) in *. set (f := frac_part y) in *.
  destruct (Rlt_dec f (/ 2)) as [H1|H1].
  - rewrite Hy. replace (IZR n - (IZR n + f)) with (- f) by ring.
    rewrite Rabs_Ropp, Rabs_right; lra.
  - assert (Hup : Rabs (IZR (n + 1) - y) <= / 2).
    { rewrite plus_IZR, Hy.
      replace (IZR n + 1 - (IZR n + f)) with (1 - f) by ring.
      rewrite Rabs_right; lra. }
    destruct (Rlt_dec (/ 2) f) as [H2|H2]; [exact Hup|].
    destruct (Z.even n); [|exact Hup].
    rewrite Hy. replace (IZR n - (IZR n + f)) with (- f) by ring.
    rewrite Rabs_Ropp, Rabs_right; lra.
Qed.

Lemma round_half_even_bounds (y : R) (m : Z) :
  0 <= y <= IZR m -> (0 <= Float32.round_half_even y <= m)%Z.
Proof.
  intros [H0 Hm]. unfold Float32.round_half_even. cbv zeta.
  pose proof (base_fp y) as [Hf0 Hf1].
  pose proof (base_Int_part y) as [Hi1 Hi2].
  assert (Hy : y = IZR (Int_part y) + frac_part y)
    by (unfold frac_part; ring).
  set (n := Int_part y) in *. set (f := frac_part y) in *.
  assert (Hn0 : (0 <= n)%Z).
  { apply le_IZR. assert (-1 < IZR n) by lra.
    apply IZR_le. apply Z.lt_succ_r. apply lt_IZR. rewrite succ_IZR. lra. }
  assert (Hnm : (n <= m)%Z) by (apply le_IZR; lra).
  assert (Hstep : 0 < f -> (n + 1 <= m)%Z).
  { intros Hf. apply Z.lt_succ_r. apply lt_IZR.
    rewrite succ_IZR, plus_IZR. lra. }
  destruct (Rlt_dec f (/ 2)); [lia|].
  assert (Hfpos : 0 < f) by lra.
  specialize (Hstep Hfpos).
  destruct (Rlt_dec (/ 2) f); [lia|].
  destruct (Z.even n); lia.
Qed.

Lemma ulp_pos (x : R) : 0 < Float32.ulp x.
Proof. unfold Float32.ulp. apply powerRZ_lt. lra. Qed.

Lemma round_error (x : R) :
  Rabs (Float32.round x - x) <= Float32.ulp x / 2.
Proof.
  unfold Float32.round. pose proof (ulp_pos x) as Hu.
  set (u := Float32.ulp x) in *.
  replace (IZR (Float32.round_half_even (x / u)) * u - x)
    with ((IZR (Float32.round_half_even (x / u)) - x / u) * u)
    by (field; lra).
  rewrite Rabs_mult, (Rabs_right u) by lra.
  pose proof (round_half_even_error (x / u)). nra.
Qed.

Lemma ln_2_pos : 0 < ln 2.
Proof. pose proof ln_lt_2. lra. Qed.

Lemma exponent_below_one (x : R) :
  0 <= x < 1 -> (-126 <= Float32.exponent x <= -1)%Z.
Proof.
  intros [H0 H1]. unfold Float32.exponent.
  destruct (Req_dec_T x 0); [lia|].
  assert (Hx : 0 < x) by lra.
  rewrite (Rabs_right x) by lra.
  assert (Hln : ln x < 0) by (rewrite <- ln_1; now apply ln_increasing).
  pose proof ln_2_pos as H2.
  assert (Hr : ln x / ln 2 < 0).
  { unfold Rdiv. assert (0 < / ln 2) by now apply Rinv_0_lt_compat. nra. }
  pose proof (base_Int_part (ln x / ln 2)) as [Hi _].
  assert (Hz : (Int_part (ln x / ln 2) < 0)%Z) by (apply lt_IZR; lra).
  lia.
Qed.

Lemma exponent_upper_half (x : R) :
  / 2 <= x < 1 -> Float32.exponent x = (-1)%Z.
Proof.
  intros [H0 H1]. unfold Float32.exponent.
  destruct (Req_dec_T x 0); [lra|].
  rewrite (Rabs_right x) by lra.
  pose proof ln_2_pos as H2.
  assert (Hln : ln x < 0) by (rewrite <- ln_1; apply ln_increasing; lra).
  assert (Hlo : - ln 2 <= ln x).
  { rewrite <- ln_Rinv by lra.
    destruct H0 as [H0 | <-]; [|apply Rle_refl].
    left. apply ln_increasing; lra. }
  assert (Hi : / ln 2 > 0) by now apply Rinv_0_lt_compat.
  rewrite <- (Int_part_spec (ln x / ln 2) (-1)); [reflexivity|].
  unfold Rdiv. split.
  - assert (ln x * / ln 2 < 0) by nra. lra.
  - assert (- ln 2 * / ln 2 <= ln x * / ln 2) by nra.
    replace (- ln 2 * / ln 2) with (-1) in H by (field; lra). exact H.
Qed.

Lemma exponent_one : Float32.exponent 1 = 0%Z.
Proof.
  unfold Float32.exponent.
  destruct (Req_dec_T 1 0); [lra|].
  rewrite Rabs_R1, ln_1. unfold Rdiv. rewrite Rmult_0_l.
  rewrite <- (Int_part_spec 0 0); [reflexivity | simpl; lra].
Qed.

Lemma powerRZ_2_mono (e e' : Z) :
  (e <= e')%Z -> powerRZ 2 e <= powerRZ 2 e'.
Proof.
  intros H. replace e' with (e + (e' - e))%Z by lia.
  rewrite powerRZ_add by lra.
  assert (0 < powerRZ 2 e) by (apply powerRZ_lt; lra).
  assert (1 <= powerRZ 2 (e' - e)).
  { destruct (Z.eq_dec (e' - e) 0) as [-> | Hne]; [simpl; lra|].
    replace (e' - e)%Z with (Z.of_nat (Z.to_nat (e' - e))) by lia.
    rewrite <- pow_powerRZ. apply pow_R1_Rle. lra. }
  nra.
Qed.

Lemma round_zero : Float32.round 0 = 0.
Proof.
  unfold Float32.round. pose proof (ulp_pos 0) as Hu.
  unfold Rdiv. rewrite Rmult_0_l.
  unfold Float32.round_half_even. cbv zeta.
  assert (Hi : Int_part 0 = 0%Z)
    by (symmetry; apply Int_part_spec; simpl; lra).
  unfold frac_part. rewrite Hi.
  destruct (Rlt_dec (0 - 0) (/ 2)); [simpl; ring | lra].
Qed.

Lemma round_one : Float32.round 1 = 1.
Proof.
  unfold Float32.round, Float32.ulp. rewrite exponent_one.
  assert (Hu : powerRZ 2 (0 - 23) = / 8388608) by (simpl; lra).
  rewrite Hu. replace (1 / / 8388608) with 8388608 by lra.
  unfold Float32.round_half_even. cbv zeta.
  assert (Hi : Int_part 8388608 = 8388608%Z)
    by (symmetry; apply Int_part_spec; lra).
  unfold frac_part. rewrite Hi.
  destruct (Rlt_dec (8388608 - 8388608) (/ 2)); lra.
Qed.

Lemma round_unit_interval (x : R) :
  0 <= x <= 1 -> 0 <= Float32.round x <= 1.
Proof.
  intros [H0 H1]. destruct (Req_dec_T x 1) as [-> | Hx1].
  { rewrite round_one. lra. }
  pose proof (exponent_below_one x ltac:(lra)) as He.
  unfold Float32.round, Float32.ulp.
  set (e := Float32.exponent x) in *.
  set (k := Z.to_nat (23 - e)).
  assert (Hk : (23 - e = Z.of_nat k)%Z) by (unfold k; lia).
  assert (Hu : powerRZ 2 (e - 23) = / 2 ^ k).
  { replace (e - 23)%Z with (- Z.of_nat k)%Z by lia.
    now rewrite powerRZ_neg', <- pow_powerRZ. }
  rewrite Hu.
  assert (Hp : 0 < 2 ^ k) by (apply pow_lt; lra).
  assert (Hm : 2 ^ k = IZR (2 ^ Z.of_nat k)) by (rewrite <- pow_IZR; reflexivity).
  replace (x / / 2 ^ k) with (x * 2 ^ k) by (field; lra).
  assert (Hy : 0 <= x * 2 ^ k <= IZR (2 ^ Z.of_nat k)).
  { rewrite <- Hm. split; nra. }
  pose proof (round_half_even_bounds _ _ Hy) as [Hr0 Hr1].
  apply IZR_le in Hr0, Hr1. rewrite <- Hm in Hr1.
  assert (Hinv : 0 < / 2 ^ k) by now apply Rinv_0_lt_compat.
  split; [apply Rmult_le_pos; lra|].
  replace 1 with (2 ^ k * / 2 ^ k) by (field; lra).
  apply Rmult_le_compat_r; lra.
Qed.

Lemma round_error_unit_interval (x : R) :
  0 <= x <= 1 -> Rabs (Float32.round x - x) <= powerRZ 2 (-25).
Proof.
  intros [H0 H1]. destruct (Req_dec_T x 1) as [-> | Hx1].
  { rewrite round_one. replace (1 - 1) with 0 by ring. rewrite Rabs_R0.
    apply powerRZ_le. lra. }
  pose proof (exponent_below_one x ltac:(lra)) as He.
  eapply Rle_trans; [apply round_error|].
  unfold Float32.ulp.
  assert (Hm : powerRZ 2 (Float32.exponent x - 23) <= powerRZ 2 (-24))
    by (apply powerRZ_2_mono; lia).
  replace (powerRZ 2 (-25)) with (powerRZ 2 (-24) / 2); [lra|].
  simpl. lra.
Qed.

Lemma sub_sub_error (c : R) :
  0 <= c <= 1 ->
  Rabs (Float32.sub 1 (Float32.sub 1 c) - c) <= powerRZ 2 (-24).
Proof.
  intros Hc. unfold Float32.sub.
  pose proof (round_error_unit_interval (1 - c) ltac:(lra)) as E1.
  pose proof (round_unit_interval (1 - c) ltac:(lra)) as B1.
  set (a := Float32.round (1 - c)) in *.
  pose proof (round_error_unit_interval (1 - a) ltac:(lra)) as E2.
  set (b := Float32.round (1 - a)) in *.
  replace (b - c) with ((b - (1 - a)) - (a - (1 - c))) by ring.
  eapply Rle_trans; [apply Rabs_triang|]. rewrite Rabs_Ropp.
  replace (powerRZ 2 (-24)) with (powerRZ 2 (-25) + powerRZ 2 (-25));
    [lra|]. simpl. lra.
Qed.

Lemma round_just_below_one : Float32.round (1 - powerRZ 2 (-27)) = 1.
Proof.
  assert (Hp : powerRZ 2 (-27) = / 134217728) by (simpl; lra).
  rewrite Hp.
  unfold Float32.round, Float32.ulp.
  rewrite exponent_upper_half by lra.
  assert (Hu : powerRZ 2 (-1 - 23) = / 16777216) by (simpl; lra).
  rewrite Hu.
  replace ((1 - / 134217728) / / 16777216) with (16777215 + 7 / 8) by lra.
  unfold Float32.round_half_even. cbv zeta.
  assert (Hi : Int_part (16777215 + 7 / 8) = 16777215%Z)
    by (symmetry; apply Int_part_spec; lra).
  unfold frac_part. rewrite Hi.
  destruct (Rlt_dec (16777215 + 7 / 8 - 16777215) (/ 2)); [lra|].
  destruct (Rlt_dec (/ 2) (16777215 + 7 / 8 - 16777215)); [|lra].
  simpl. lra.
Qed.

Lemma sub_sub_small : Float32.sub 1 (Float32.sub 1 (powerRZ 2 (-27))) = 0.
Proof.
  unfold Float32.sub. rewrite round_just_below_one.
  replace (1 - 1) with 0 by ring. apply round_zero.
Qed.

Lemma ln_small_power : ln (powerRZ 2 (-27)) / ln 2 = -27.
Proof.
  pose proof ln_2_pos as H2.
  change (powerRZ 2 (-27)) with (/ 2 ^ 27).
  rewrite ln_Rinv by (apply pow_lt; lra). rewrite ln_pow by lra.
  replace (INR 27) with 27 by (simpl; lra). field. lra.
Qed.

Lemma round_small_power : Float32.round (powerRZ 2 (-27)) = powerRZ 2 (-27).
Proof.
  assert (Hp : powerRZ 2 (-27) = / 134217728) by (simpl; lra).
  assert (He : Float32.exponent (powerRZ 2 (-27)) = (-27)%Z).
  { unfold Float32.exponent.
    destruct (Req_dec_T (powerRZ 2 (-27)) 0); [lra|].
    rewrite Rabs_right by lra.
    rewrite ln_small_power.
    rewrite <- (Int_part_spec (-27) (-27)); [reflexivity | lra]. }
  unfold Float32.round, Float32.ulp. rewrite He.
  assert (Hu : powerRZ 2 (-27 - 23) = / 1125899906842624) by (simpl; lra).
  rewrite Hu, Hp.
  replace (/ 134217728 / / 1125899906842624) with 8388608 by lra.
  unfold Float32.round_half_even. cbv zeta.
  assert (Hi : Int_part 8388608 = 8388608%Z)
    by (symmetry; apply Int_part_spec; lra).
  unfold frac_part. rewrite Hi.
  destruct (Rlt_dec (8388608 - 8388608) (/ 2)); lra.
Qed.

End Float32Facts.

(** ** The focal weight *)

Section FocalWeight.
Import Tensor Eff.

(** C4, as amended. Every entry of the first [focal_weight] is
    [(1 - pred) ^ exp(-sigma_var) * exp(-0.5 * sigma_var)] where the label
    exceeds the cutoff and
    [(1 - (1 - pred)) ^ exp(-sigma_var) * exp(-0.5 * sigma_var)] elsewhere,
    with the base as the source writes it.  As float32 computes that base,
    by two rounded subtractions, it lies within 2^-24 of a prediction in
    [0,1]; so at [sigma_var = 0], where the exponent is 1 and the factor
    is 1, the weight itself lies within 2^-24 of the prediction. *)
Theorem focal_weight_negative_branch_base :
  forall (cutoff sigma : R),
    (forall labels classification : tensor2,
        Losses.focal_weight_sigma cutoff sigma labels classification
        = zip2d (fun label pred =>
                   if Rlt_dec cutoff label
                   then Backend.pow (1 - pred) (exp (- sigma))
                        * exp (- 0.5 * sigma)
                   else Backend.pow (1 - (1 - pred)) (exp (- sigma))
                        * exp (- 0.5 * sigma))
                labels classification)
    /\ (forall label pred,
           ~ cutoff < label ->
           Float32.focal_weight_sigma cutoff sigma label pred
           = Backend.pow (Float32.sub 1 (Float32.sub 1 pred)) (exp (- sigma))
             * exp (- 0.5 * sigma))
    /\ (forall pred,
           0 <= pred <= 1 ->
           Rabs (Float32.sub 1 (Float32.sub 1 pred) - pred)
           <= powerRZ 2 (-24))
    /\ (forall label pred,
           ~ cutoff < label -> 0 <= pred <= 1 ->
           Rabs (Float32.focal_weight_sigma cutoff 0 label pred - pred)
           <= powerRZ 2 (-24)).
Proof.
  intros cutoff sigma.
  assert (Hneg : forall s label pred,
             ~ cutoff < label ->
             Float32.focal_weight_sigma cutoff s label pred
             = Backend.pow (Float32.sub 1 (Float32.sub 1 pred)) (exp (- s))
               * exp (- 0.5 * s)).
  { intros s label pred Hl. unfold Float32.focal_weight_sigma, Backend.greater.
    now destruct (Rlt_dec cutoff label). }
  split; [|split; [apply Hneg | split; [apply sub_sub_error|]]].
  - intros labels classification.
    rewrite focal_weight_sigma_entries. apply zip2d_ext.
    intros l c. unfold Entry.focal_weight_sigma, Backend.greater.
    now destruct (Rlt_dec cutoff l).
  - intros label pred Hl Hp. rewrite (Hneg 0 label pred Hl).
    replace (exp (- 0)) with 1 by (rewrite Ropp_0, exp_0; reflexivity).
    replace (exp (- 0.5 * 0)) with 1
      by (rewrite Rmult_0_r, exp_0; reflexivity).
    rewrite pow_one, Rmult_1_r. now apply sub_sub_error.
Qed.

Lemma focal_weight_negative_branch_base_witness :
  Rabs (Float32.sub 1 (Float32.sub 1 (/ 4)) - / 4) <= powerRZ 2 (-24).
Proof.
  apply (proj1 (proj2 (proj2 (focal_weight_negative_branch_base 0.5 0)))).
  lra.
Defined.

(** C4, where the claim fails: for the prediction 2^-27, a float32 number
    in [0,1], the first subtraction rounds [1 - 2^-27] to 1 and the second
    gives 0.  With [sigma_var = 3] and a label below the cutoff the weight
    the source computes is then 0, while the prediction raised to
    [exp(-sigma_var)] and scaled by [exp(-0.5 * sigma_var)] is positive. *)
Lemma focal_weight_double_negation_rounds_to_zero :
  let pred := powerRZ 2 (-27) in
  let sigma_var := 3 in
  0 <= pred <= 1
  /\ Float32.round pred = pred
  /\ Float32.sub 1 (Float32.sub 1 pred) = 0
  /\ pred <> 0
  /\ Float32.focal_weight_sigma 0.5 sigma_var 0 pred = 0
  /\ 0 < Backend.pow pred (exp (- sigma_var)) * exp (- 0.5 * sigma_var).
Proof.
  cbv zeta.
  assert (Hp : 0 < powerRZ 2 (-27) < 1) by (simpl; lra).
  split; [lra | split; [apply round_small_power | split;
    [apply sub_sub_small | split; [lra | split]]]].
  - unfold Float32.focal_weight_sigma.
    rewrite (greater_false 0 0.5) by lra.
    rewrite sub_sub_small, (pow_zero_base _ (exp_pos (Ropp 3))). ring.
  - apply Rmult_lt_0_compat; [apply pow_pos; lra | apply exp_pos].
Qed.

Lemma alpha_factor_half (cutoff l : R) : Entry.alpha_factor 0.5 cutoff l = 0.5.
Proof.
  unfold Entry.alpha_factor. destruct (Backend.greater l cutoff); lra.
Qed.

Lemma focal_weight_half (cutoff sigma l c : R) :
  Entry.focal_weight 0.5 0 cutoff sigma l c = 0.5.
Proof.
  unfold Entry.focal_weight.
  rewrite alpha_factor_half, pow_zero_exponent. lra.
Qed.

(** C8. With alpha = 0.5 and gamma = 0 every entry of
    [alpha_factor * focal_weight ** gamma] is 0.5, whatever the label and
    the prediction, and the value returned is 0.5 times the sum of the
    entries of [cross_entropy], divided by the normalizer. *)
Theorem focal_weight_constant_for_gamma_zero :
  forall (cutoff : R),
    (forall sigma labels classification,
        Losses.focal_weight 0.5 0 cutoff sigma labels classification
        = zip2d (fun _ _ => 0.5) labels classification)
    /\ (forall (st : store) (sigma_var : ref) (v : variable)
               B N C y_true y_pred,
           nth_error st sigma_var = Some v ->
           shape3 y_true B N (S C) -> shape3 y_pred B N C ->
           let labels := gather_nd (slice_init y_true) (focal_indices y_true) in
           let classification := gather_nd y_pred (focal_indices y_true) in
           Losses._focal 0.5 0 cutoff sigma_var y_true y_pred st
           = (Ok (0.5 * sum (Losses.cross_entropy (var_value v)
                                                  labels classification)
                  / Losses.focal_normalizer (slice_last y_true)), st)).
Proof.
  intros cutoff. split.
  - intros sigma labels classification.
    rewrite focal_weight_entries. apply zip2d_ext.
    intros l c. apply focal_weight_half.
  - intros st sigma_var v B N C y_true y_pred Hv _ _. cbv zeta.
    rewrite (_focal_eval _ _ _ _ _ _ _ _ Hv), cross_entropy_entries.
    rewrite <- sum_scal, map2d_zip2d.
    rewrite (zip2d_ext (Entry.cls_loss 0.5 0 cutoff (var_value v))
                       (fun x y => 0.5 * Entry.cross_entropy (var_value v) x y));
      [reflexivity|].
    intros l c. unfold Entry.cls_loss. now rewrite focal_weight_half.
Qed.

Lemma focal_weight_constant_for_gamma_zero_witness :
  let st := [Var "sigma_sq_focal" 0 true] in
  let y_true := [[[1; 1]; [0; 0]; [1; -1]]] in
  let y_pred := [[[0.75]; [0.25]; [0.5]]] in
  Losses._focal 0.5 0 0.5 0%nat y_true y_pred st
  = (Ok (0.5 * sum (Losses.cross_entropy
                      0 (gather_nd (slice_init y_true) (focal_indices y_true))
                      (gather_nd y_pred (focal_indices y_true)))
         / Losses.focal_normalizer (slice_last y_true)), st).
Proof.
  intros st y_true y_pred.
  apply (proj2 (focal_weight_constant_for_gamma_zero 0.5)
               st 0%nat (Var "sigma_sq_focal" 0 true) 1%nat 3%nat 1%nat
               y_true y_pred eq_refl).
  - split; [reflexivity|]. repeat constructor.
  - split; [reflexivity|]. repeat constructor.
Defined.

End FocalWeight.

(** ** The sign of the focal loss *)

Section FocalSign.
Import Tensor Eff.

Lemma alpha_factor_nonneg (alpha cutoff l : R) :
  0 <= alpha <= 1 -> 0 <= Entry.alpha_factor alpha cutoff l.
Proof.
  intros H. unfold Entry.alpha_factor.
  destruct (Backend.greater l cutoff); lra.
Qed.

Lemma cross_entropy_nonneg (sigma l c : R) :
  0 <= sigma -> 0 <= l <= 1 -> 0 <= Entry.cross_entropy sigma l c.
Proof.
  intros Hs Hl. unfold Entry.cross_entropy.
  pose proof (binary_crossentropy_nonneg l c Hl) as Hb.
  pose proof (exp_pos (- sigma)) as He.
  rewrite dec_two. nra.
Qed.

Lemma focal_weight_sigma_nonneg (cutoff sigma l c : R) :
  0 <= c <= 1 -> 0 <= Entry.focal_weight_sigma cutoff sigma l c.
Proof.
  intros Hc. unfold Entry.focal_weight_sigma.
  destruct (Backend.greater l cutoff);
    (apply Rmult_le_pos; [apply pow_nonneg; lra | left; apply exp_pos]).
Qed.

Lemma cls_loss_nonneg (alpha gamma cutoff sigma l c : R) :
  0 <= alpha <= 1 -> 0 <= sigma -> 0 <= l <= 1 -> 0 <= c <= 1 ->
  0 <= Entry.cls_loss alpha gamma cutoff sigma l c.
Proof.
  intros Ha Hs Hl Hc. unfold Entry.cls_loss, Entry.focal_weight.
  apply Rmult_le_pos; [apply Rmult_le_pos|].
  - now apply alpha_factor_nonneg.
  - now apply pow_nonneg, focal_weight_sigma_nonneg.
  - now apply cross_entropy_nonneg.
Qed.

Lemma focal_normalizer_pos (anchor_state : tensor2) :
  1 <= Losses.focal_normalizer anchor_state.
Proof.
  unfold Losses.focal_normalizer. cbv zeta. rewrite dec_one. apply Rmax_l.
Qed.

(** Outside [0,1] alpha gives a negative weight to one of the two kinds of
    entry: with alpha = 2 a label below the cutoff is weighted by -1. *)
Lemma alpha_factor_negative_example :
  Entry.alpha_factor 2 Losses.default_cutoff 0 = -1.
Proof.
  unfold Entry.alpha_factor, Losses.default_cutoff, Backend.greater.
  destruct (Rlt_dec 0.5 0); lra.
Qed.

(** C5, as amended. When [sigma_var] is not negative, alpha lies in [0,1],
    gamma is not negative, the anchor states are -1, 0 or 1 and the labels
    and the predictions lie in [0,1], [_focal] returns a value that is not
    negative. *)
Theorem focal_loss_nonnegative :
  forall (st : store) (sigma_var : ref) (v : variable)
         alpha gamma cutoff B N C y_true y_pred,
    nth_error st sigma_var = Some v ->
    0 <= var_value v ->
    0 <= alpha <= 1 ->
    0 <= gamma ->
    shape3 y_true B N (S C) -> shape3 y_pred B N C ->
    all2 (fun a => a = -1 \/ a = 0 \/ a = 1) (slice_last y_true) ->
    all3 (fun l => 0 <= l <= 1) (slice_init y_true) ->
    all3 (fun p => 0 <= p <= 1) y_pred ->
    exists loss : R,
      Losses._focal alpha gamma cutoff sigma_var y_true y_pred st
      = (Ok loss, st)
      /\ 0 <= loss.
Proof.
  intros st sigma_var v alpha gamma cutoff B N C y_true y_pred
         Hv Hs Ha _ _ _ _ Hl Hp.
  eexists. split; [apply (_focal_eval _ _ _ _ _ _ _ _ Hv)|].
  pose proof (focal_normalizer_pos (slice_last y_true)) as Hn.
  apply Rmult_le_pos; [|left; apply Rinv_0_lt_compat; lra].
  apply sum_nonneg.
  apply (zip2d_nonneg (fun l => 0 <= l <= 1) (fun p => 0 <= p <= 1)).
  - intros l c Hl' Hc'. now apply cls_loss_nonneg.
  - now apply gather_nd_all.
  - now apply gather_nd_all.
Qed.

Lemma focal_loss_nonnegative_witness :
  exists loss : R,
    Losses._focal 0.1 2.0 0.5 0%nat [[[1; 1]; [0; 0]]] [[[0.75]; [0.25]]]
                  [Var "sigma_sq_focal" 0 true]
    = (Ok loss, [Var "sigma_sq_focal" 0 true])
    /\ 0 <= loss.
Proof.
  apply (focal_loss_nonnegative
           [Var "sigma_sq_focal" 0 true] 0%nat (Var "sigma_sq_focal" 0 true)
           0.1 2.0 0.5 1%nat 2%nat 1%nat
           [[[1; 1]; [0; 0]]] [[[0.75]; [0.25]]] eq_refl).
  - simpl. lra.
  - lra.
  - lra.
  - split; [reflexivity|]. repeat constructor.
  - split; [reflexivity|]. repeat constructor.
  - repeat constructor; simpl; lra.
  - repeat constructor; simpl; lra.
  - repeat constructor; simpl; lra.
Defined.

End FocalSign.

(** ** A negative focal loss *)

Section FocalSignCounter.
Import Tensor Eff.

Lemma not_equal_true (x y : R) : x <> y -> Backend.not_equal x y = true.
Proof.
  intros H. unfold Backend.not_equal.
  now rewrite (proj2 (equal_false x y) H).
Qed.

Lemma cls_loss_negative_example :
  Entry.cls_loss Losses.default_alpha Losses.default_gamma
                 Losses.default_cutoff (-1) 0 0.1 < 0.
Proof.
  unfold Entry.cls_loss, Losses.default_alpha, Losses.default_gamma,
    Losses.default_cutoff.
  assert (Hw : 0 < Entry.focal_weight 0.1 2.0 0.5 (-1) 0 0.1).
  { unfold Entry.focal_weight, Entry.alpha_factor, Entry.focal_weight_sigma.
    rewrite (greater_false 0 0.5) by lra.
    apply Rmult_lt_0_compat; [lra|].
    apply pow_pos. apply Rmult_lt_0_compat; [|apply exp_pos].
    apply pow_pos. lra. }
  assert (Hc : Entry.cross_entropy (-1) 0 0.1 < 0).
  { unfold Entry.cross_entropy, Backend.binary_crossentropy, Backend.log.
    cbv zeta. pose proof epsilon_bounds as He.
    rewrite clip_by_value_inside by (unfold Backend.epsilon; lra).
    assert (Hl := ln_lower (1 - 0.1 + Backend.epsilon)).
    assert (Hi : / (1 - 0.1 + Backend.epsilon) <= / 0.9)
      by (apply Rinv_le_contravar; lra).
    assert (Hl' : - ln (1 - 0.1 + Backend.epsilon) <= / 0.9 - 1)
      by (assert (0 < 1 - 0.1 + Backend.epsilon) by lra;
          specialize (Hl H); lra).
    assert (Hu := ln_upper (1 - 0.1 + Backend.epsilon)).
    assert (Hu' : 0 <= - ln (1 - 0.1 + Backend.epsilon))
      by (assert (0 < 1 - 0.1 + Backend.epsilon) by lra;
          specialize (Hu H); unfold Backend.epsilon in *; lra).
    replace (- -1) with 1 by ring.
    pose proof exp_le_3 as H3. pose proof (exp_pos 1) as H0.
    set (b := ln (1 - 0.1 + Backend.epsilon)) in *.
    assert (Hq : / 0.9 - 1 <= 0.12) by lra.
    assert (Hb : - (0 * ln (0.1 + Backend.epsilon) + (1 - 0) * b) = - b) by ring.
    rewrite Hb. rewrite dec_two. nra. }
  nra.
Qed.

(** C5, where the claim fails: with the default alpha, gamma and cutoff
    and [sigma_var] at -1, one background anchor with label 0 and
    prediction 0.1 gives a negative loss: the term [sigma_var / 2.0] of
    [cross_entropy] outweighs the scaled cross-entropy. *)
Lemma focal_negative_for_negative_sigma_var :
  let st := [Var "sigma_sq_focal" (-1) true] in
  let y_true := [[[0; 0]]] in
  let y_pred := [[[0.1]]] in
  shape3 y_true 1 1 2 /\ shape3 y_pred 1 1 1
  /\ all2 (fun a => a = -1 \/ a = 0 \/ a = 1) (slice_last y_true)
  /\ all3 (fun l => 0 <= l <= 1) (slice_init y_true)
  /\ all3 (fun p => 0 <= p <= 1) y_pred
  /\ exists loss : R,
      Losses._focal Losses.default_alpha Losses.default_gamma
                    Losses.default_cutoff 0%nat y_true y_pred st
      = (Ok loss, st)
      /\ loss < 0.
Proof.
  intros st y_true y_pred.
  split; [split; [reflexivity | repeat constructor]|].
  split; [split; [reflexivity | repeat constructor]|].
  split; [repeat constructor; simpl; lra|].
  split; [repeat constructor; simpl; lra|].
  split; [repeat constructor; simpl; lra|].
  rewrite (_focal_eval Losses.default_alpha Losses.default_gamma
             Losses.default_cutoff 0%nat y_true y_pred st
             (Var "sigma_sq_focal" (-1) true) eq_refl).
  eexists. split; [reflexivity|].
  rewrite focal_normalizer_count.
  unfold focal_indices, tf_where, count_positive. simpl.
  rewrite (not_equal_true 0 (-1)) by lra.
  rewrite (proj2 (equal_false 0 1)) by lra.
  simpl. unfold sum, sum1. simpl.
  pose proof cls_loss_negative_example. lra.
Qed.
End FocalSignCounter.

(** ** The anchors that enter the smooth-L1 loss *)

Section Positives.
Import Tensor Eff.

Lemma shape3_same_rows (t t' : tensor3) (B N C C' : nat) :
  shape3 t B N C -> shape3 t' B N C' -> same_rows t t'.
Proof.
  intros [Hb Ht] [Hb' Ht']. unfold same_rows.
  revert B t' Hb Hb' Ht'.
  induction Ht as [|m t Hm _ IH]; intros B t' Hb Hb' Ht'.
  - destruct t'; [constructor | simpl in *; lia].
  - destruct Ht' as [|m' t' Hm' Ht']; [simpl in *; lia|].
    constructor.
    + destruct Hm as [Hm _], Hm' as [Hm' _]. congruence.
    + apply (IH (pred B)); simpl in *; [lia | lia | exact Ht'].
Qed.

Lemma same_rows_map2d_l {A B C : Type} (f : A -> B)
      (m : list (list A)) (t : list (list C)) :
  same_rows m t -> same_rows (map2d f m) t.
Proof.
  unfold same_rows, map2d. induction 1 as [|r r' m t Hr _ IH]; simpl;
    constructor; [now rewrite length_map | exact IH].
Qed.

Lemma same_rows_map2d_r {A B C : Type} (f : A -> B)
      (m : list (list C)) (t : list (list A)) :
  same_rows m t -> same_rows m (map2d f t).
Proof.
  unfold same_rows, map2d. induction 1 as [|r r' m t Hr _ IH]; simpl;
    constructor; [now rewrite length_map | exact IH].
Qed.

Lemma same_rows_refl {A : Type} (m : list (list A)) : same_rows m m.
Proof.
  unfold same_rows. induction m; constructor; [reflexivity | assumption].
Qed.

Lemma same_rows_concat {A B : Type} (m : list (list A)) (t : list (list B)) :
  same_rows m t -> length (concat m) = length (concat t).
Proof.
  induction 1 as [|r r' m t Hr _ IH]; simpl; [reflexivity|].
  rewrite !length_app. congruence.
Qed.

Lemma masked_map_both {A B C : Type} (c : A -> bool) (h : A -> B)
      (xs : list A) (ys : list C) :
  length xs = length ys ->
  masked (map c xs) (map h xs)
  = map (fun a => h (fst a)) (filter (fun a => c (fst a)) (combine xs ys)).
Proof.
  unfold masked. revert ys.
  induction xs as [|x xs IH]; intros [|y ys] H; simpl in *;
    try discriminate; [reflexivity|].
  injection H as H. destruct (c x); simpl; now rewrite (IH ys H).
Qed.

Lemma smooth_l1_selects_positive_anchors (y_true y_pred : tensor3) :
  same_rows y_true y_pred ->
  let selected := filter positive (anchors y_true y_pred) in
  gather_nd y_pred (smooth_l1_indices y_true) = map snd selected
  /\ gather_nd (slice_init y_true) (smooth_l1_indices y_true)
     = map (fun a => removelast (fst a)) selected.
Proof.
  intros H. cbv zeta. unfold smooth_l1_indices, slice_last, slice_init.
  fold (map2d (fun r : tensor1 => last r 0) y_true).
  fold (map2d (@removelast R) y_true).
  rewrite map2d_map2d. split.
  - rewrite gather_nd_where by now apply same_rows_map2d_l.
    rewrite concat_map2d, masked_map. reflexivity.
  - rewrite gather_nd_where
      by (apply same_rows_map2d_l, same_rows_map2d_r, same_rows_refl).
    rewrite !concat_map2d.
    exact (masked_map_both (fun r : tensor1 => Backend.equal (last r 0) 1)
                           (@removelast R) (concat y_true) (concat y_pred)
                           (same_rows_concat _ _ H)).
Qed.

Lemma filter_Forall {A : Type} (c : A -> bool) (l : list A) :
  Forall (fun x => c x = true) (filter c l).
Proof.
  apply Forall_forall. intros x Hx. now apply filter_In in Hx.
Qed.

(** C7. On a batch of the documented shape [_smooth_l1] gathers, from the
    predictions and from the targets, the rows of the same anchors: those
    whose state is 1, each prediction row with the target row of its own
    anchor.  The value returned is the sum of the entry losses of these
    anchors over the normalizer, so an anchor with another state adds
    nothing to it. *)
Theorem smooth_l1_uses_positive_anchors_only :
  forall (st : store) (sigma_var : ref) (v : variable)
         sigma_squared B N C y_true y_pred,
    nth_error st sigma_var = Some v ->
    sigma_squared <> 0 ->
    shape3 y_true B N (S C) -> shape3 y_pred B N C ->
    let selected := filter positive (anchors y_true y_pred) in
    let anchor_loss (a : tensor1 * tensor1) :=
      zip_with (Entry.regression_loss sigma_squared (var_value v))
               (snd a) (removelast (fst a)) in
    Forall (fun a => state a = 1) selected
    /\ gather_nd y_pred (smooth_l1_indices y_true) = map snd selected
    /\ gather_nd (slice_init y_true) (smooth_l1_indices y_true)
       = map (fun a => removelast (fst a)) selected
    /\ Losses._smooth_l1 sigma_squared sigma_var y_true y_pred st
       = (Ok (sum (map anchor_loss selected)
              / INR (Nat.max 1 (length selected))), st).
Proof.
  intros st sigma_var v sigma_squared B N C y_true y_pred Hv Hs Ht Hp.
  cbv zeta.
  assert (Hrows : same_rows y_true y_pred)
    by exact (shape3_same_rows _ _ _ _ _ _ Ht Hp).
  destruct (smooth_l1_selects_positive_anchors y_true y_pred Hrows)
    as [Hpred Htarget].
  split; [|split; [exact Hpred | split; [exact Htarget|]]].
  - eapply Forall_impl; [|apply filter_Forall].
    intros a Ha. now apply equal_true.
  - rewrite (_smooth_l1_eval _ _ _ _ _ _ Hv Hs).
    assert (Hlen : length (smooth_l1_indices y_true)
                   = length (filter positive (anchors y_true y_pred))).
    { rewrite <- (length_map snd (filter positive (anchors y_true y_pred))),
        <- Hpred.
      unfold gather_nd. now rewrite length_map. }
    rewrite Hlen, Hpred, Htarget.
    unfold zip2d. rewrite zip_with_same. reflexivity.
Qed.

End Positives.

Section PositivesWitness.
Import Tensor Eff.

Lemma smooth_l1_uses_positive_anchors_only_witness :
  let st := [Var "sigma_sq_smooth_l1" 0 true] in
  let y_true := [[[0; 0; 1]; [5; 5; 0]; [1; 1; -1]]] in
  let y_pred := [[[1; 2]; [3; 4]; [5; 6]]] in
  let selected := filter positive (anchors y_true y_pred) in
  Forall (fun a => state a = 1) selected
  /\ gather_nd y_pred (smooth_l1_indices y_true) = map snd selected
  /\ gather_nd (slice_init y_true) (smooth_l1_indices y_true)
     = map (fun a => removelast (fst a)) selected
  /\ Losses._smooth_l1 9 0%nat y_true y_pred st
     = (Ok (sum (map (fun a => zip_with (Entry.regression_loss 9 0)
                                        (snd a) (removelast (fst a)))
                     selected)
            / INR (Nat.max 1 (length selected))), st).
Proof.
  intros st y_true y_pred.
  apply (smooth_l1_uses_positive_anchors_only
           st 0%nat (Var "sigma_sq_smooth_l1" 0 true) 9 1%nat 3%nat 2%nat
           y_true y_pred eq_refl).
  - lra.
  - split; [reflexivity|]. repeat constructor.
  - split; [reflexivity|]. repeat constructor.
Defined.

Lemma focal_divides_by_positive_count_witness :
  let st := [Var "sigma_sq_focal" 0 true] in
  let y_true := [[[1; 1]; [0; 0]; [1; -1]]] in
  let y_pred := [[[0.75]; [0.25]; [0.5]]] in
  let positives := count_positive (slice_last y_true) in
  let normalizer := if (positives <? 1)%nat then 1 else INR positives in
  Losses.focal_normalizer (slice_last y_true) = normalizer
  /\ Losses._focal 0.1 2.0 0.5 0%nat y_true y_pred st
     = (Ok (sum (zip2d (Entry.cls_loss 0.1 2.0 0.5 0)
                       (gather_nd (slice_init y_true) (focal_indices y_true))
                       (gather_nd y_pred (focal_indices y_true)))
            / normalizer), st).
Proof.
  intros st y_true y_pred.
  apply (focal_divides_by_positive_count
           st 0%nat (Var "sigma_sq_focal" 0 true) 0.1 2.0 0.5
           1%nat 3%nat 1%nat y_true y_pred eq_refl).
  - split; [reflexivity|]. repeat constructor.
  - split; [reflexivity|]. repeat constructor.
Defined.

End PositivesWitness.

(** ** The quadratic branch of the smooth-L1 loss *)

Section Quadratic.
Import Tensor Eff.

Lemma smooth_l1_factor_eq (sigma : R) :
  Losses.smooth_l1_factor sigma = 0.5 * exp (- sigma).
Proof.
  unfold Losses.smooth_l1_factor. rewrite exp_Ropp. decimals.
  pose proof (exp_pos sigma). field. lra.
Qed.

Lemma threshold_pos (sigma : R) : sigma <> 0 -> 0 < 1.0 / sigma ^ 2.
Proof.
  intros H. rewrite dec_one. apply Rdiv_lt_0_compat; [lra|].
  pose proof (Rsqr_pos_lt sigma H) as Hq. unfold Rsqr in Hq.
  simpl. lra.
Qed.

Lemma regression_loss_below_threshold (sigma s p t : R) :
  Rabs (p - t) < 1.0 / sigma ^ 2 ->
  Entry.regression_loss (sigma ^ 2) s p t
  = 0.5 * exp (- s) * (p - t) ^ 2 + 0.5 * s.
Proof.
  intros H. unfold Entry.regression_loss. cbv zeta.
  rewrite (proj2 (less_true _ _) H).
  unfold Losses.quadratic_branch. cbv zeta.
  rewrite smooth_l1_factor_eq, (pow_two _ (Rabs_pos _)).
  replace (Rabs (p - t) * Rabs (p - t)) with ((p - t) ^ 2); [reflexivity|].
  rewrite <- Rabs_mult, Rabs_right; [ring|].
  pose proof (Rle_0_sqr (p - t)) as Hq. unfold Rsqr in Hq. lra.
Qed.

Lemma regression_loss_exact (sigma s p : R) :
  sigma <> 0 -> Entry.regression_loss (sigma ^ 2) s p p = 0.5 * s.
Proof.
  intros H. rewrite regression_loss_below_threshold.
  - replace (p - p) with 0 by ring. simpl. ring.
  - replace (p - p) with 0 by ring. rewrite Rabs_R0.
    now apply threshold_pos.
Qed.

Lemma sum1_zip_with_diag (f : R -> R -> R) (k : R) (r : tensor1) :
  (forall x, f x x = k) -> sum1 (zip_with f r r) = INR (length r) * k.
Proof.
  intros H. unfold sum1.
  induction r as [|x r IH]; [simpl; ring|].
  change (zip_with f (x :: r) (x :: r)) with (f x x :: zip_with f r r).
  change (length (x :: r)) with (S (length r)).
  rewrite S_INR. simpl fold_right. rewrite IH, H. ring.
Qed.

Lemma shape3_concat_rows (t : tensor3) (B N C : nat) :
  shape3 t B N C -> Forall (fun r : tensor1 => length r = C) (concat t).
Proof.
  intros [_ H]. apply Forall_concat.
  eapply Forall_impl; [|exact H]. now intros m [_ Hm].
Qed.

Lemma smooth_l1_single_exact (st : store) (sigma_var : ref) (v : variable)
      (sigma : R) (B N C : nat) (y_true y_pred : tensor3) (target : tensor1) :
  nth_error st sigma_var = Some v ->
  sigma <> 0 ->
  shape3 y_true B N (S C) -> shape3 y_pred B N C ->
  filter positive (anchors y_true y_pred) = [(target, removelast target)] ->
  Losses._smooth_l1 (sigma ^ 2) sigma_var y_true y_pred st
  = (Ok (INR C * (0.5 * var_value v)), st).
Proof.
  intros Hv Hs Ht Hp Hsel.
  assert (Hrows : same_rows y_true y_pred)
    by exact (shape3_same_rows _ _ _ _ _ _ Ht Hp).
  destruct (smooth_l1_selects_positive_anchors y_true y_pred Hrows)
    as [Hpred Htarget].
  rewrite Hsel in Hpred, Htarget. simpl in Hpred, Htarget.
  assert (Hs2 : sigma ^ 2 <> 0) by now apply pow_nonzero.
  rewrite (_smooth_l1_eval _ _ _ _ _ _ Hv Hs2).
  assert (Hlen : length (smooth_l1_indices y_true) = 1%nat).
  { transitivity (length (gather_nd y_pred (smooth_l1_indices y_true))).
    - unfold gather_nd. now rewrite length_map.
    - now rewrite Hpred. }
  rewrite Hlen, Hpred, Htarget.
  assert (HC : length (removelast target) = C).
  { pose proof (shape3_concat_rows _ _ _ _ Hp) as Hall.
    rewrite Forall_forall in Hall. apply Hall.
    apply (in_combine_r (concat y_true) (concat y_pred) target).
    apply (proj1 (filter_In positive _ (anchors y_true y_pred))).
    rewrite Hsel. now left. }
  unfold zip2d, sum. simpl zip_with. simpl map.
  rewrite (sum1_zip_with_diag _ (0.5 * var_value v))
    by (intros x; now apply regression_loss_exact).
  rewrite HC. unfold sum1. simpl. f_equal. f_equal. field.
Qed.

(** C2, as amended. Where the absolute difference of a prediction and its
    target is below the threshold [1.0 / sigma_squared], the entry of
    [regression_loss] is [0.5 * exp(-sigma_var) * diff^2 + 0.5 * sigma_var].
    In a batch whose single positive anchor has a prediction equal to its
    target, every entry of that anchor is [0.5 * sigma_var], the normalizer
    is 1, and the value returned is the sum over the anchor's C
    coordinates, [C * 0.5 * sigma_var]. *)
Theorem smooth_l1_quadratic_branch_value :
  forall (st : store) (sigma_var : ref) (v : variable) (sigma : R),
    nth_error st sigma_var = Some v ->
    sigma <> 0 ->
    (forall regression regression_target,
        Losses.regression_loss (sigma ^ 2) (var_value v)
                               regression regression_target st
        = (Ok (zip2d (Entry.regression_loss (sigma ^ 2) (var_value v))
                     regression regression_target), st))
    /\ (forall p t,
           Rabs (p - t) < 1.0 / sigma ^ 2 ->
           Entry.regression_loss (sigma ^ 2) (var_value v) p t
           = 0.5 * exp (- var_value v) * (p - t) ^ 2 + 0.5 * var_value v)
    /\ (forall p, Entry.regression_loss (sigma ^ 2) (var_value v) p p
                  = 0.5 * var_value v)
    /\ (forall B N C y_true y_pred target,
           shape3 y_true B N (S C) -> shape3 y_pred B N C ->
           filter positive (anchors y_true y_pred)
           = [(target, removelast target)] ->
           Losses._smooth_l1 (sigma ^ 2) sigma_var y_true y_pred st
           = (Ok (INR C * (0.5 * var_value v)), st)).
Proof.
  intros st sigma_var v sigma Hv Hs.
  assert (Hs2 : sigma ^ 2 <> 0) by now apply pow_nonzero.
  split; [|split; [|split]].
  - intros regression regression_target.
    now apply regression_loss_eval.
  - intros p t. apply regression_loss_below_threshold.
  - intros p. now apply regression_loss_exact.
  - intros B N C y_true y_pred target.
    now apply smooth_l1_single_exact.
Qed.

End Quadratic.

Section QuadraticExamples.
Import Tensor Eff.

Lemma single_positive_anchor_selected (target : tensor1) :
  filter positive (anchors [[target ++ [1]]] [[target]])
  = [(target ++ [1], removelast (target ++ [1]))].
Proof.
  unfold anchors, positive, state. simpl.
  rewrite last_last, (proj2 (equal_true 1 1) eq_refl).
  now rewrite removelast_last.
Qed.

Lemma single_positive_anchor_rows (target : tensor1) :
  filter positive (anchors [[target ++ [1]]] [[target]])
  = [(target ++ [1], target)].
Proof.
  rewrite single_positive_anchor_selected. now rewrite removelast_last.
Qed.

Lemma smooth_l1_quadratic_branch_value_witness :
  let st := [Var "sigma_sq_smooth_l1" 0 true] in
  Losses._smooth_l1 (3 ^ 2) 0%nat [[[1; 2; 3; 4; 1]]] [[[1; 2; 3; 4]]] st
  = (Ok (INR 4 * (0.5 * 0)), st).
Proof.
  intros st.
  apply (proj2 (proj2 (proj2 (smooth_l1_quadratic_branch_value
                                st 0%nat (Var "sigma_sq_smooth_l1" 0 true) 3
                                eq_refl ltac:(lra))))
               1%nat 1%nat 4%nat _ _ [1; 2; 3; 4; 1]).
  - split; [reflexivity|]. repeat constructor.
  - split; [reflexivity|]. repeat constructor.
  - exact (single_positive_anchor_selected [1; 2; 3; 4]).
Defined.

(** C2, where the claim fails: with [sigma_var] at 1 and the default
    [sigma], one positive anchor whose four predicted deltas equal their
    targets gives the loss 2, the sum of four entries 0.5, and not 0.5. *)
Lemma smooth_l1_exact_prediction_returns_sum :
  let st := [Var "sigma_sq_smooth_l1" 1 true] in
  let y_true := [[[0; 0; 0; 0; 1]]] in
  let y_pred := [[[0; 0; 0; 0]]] in
  shape3 y_true 1 1 5 /\ shape3 y_pred 1 1 4
  /\ filter positive (anchors y_true y_pred)
     = [([0; 0; 0; 0; 1], [0; 0; 0; 0])]
  /\ Losses._smooth_l1 (Losses.default_sigma ^ 2) 0%nat y_true y_pred st
     = (Ok 2, st)
  /\ 2 <> 0.5 * 1.
Proof.
  intros st y_true y_pred.
  assert (Ht : shape3 y_true 1 1 5)
    by (split; [reflexivity | repeat constructor]).
  assert (Hp : shape3 y_pred 1 1 4)
    by (split; [reflexivity | repeat constructor]).
  assert (Hsel : filter positive (anchors y_true y_pred)
                 = [([0; 0; 0; 0; 1], removelast [0; 0; 0; 0; 1])])
    by exact (single_positive_anchor_selected [0; 0; 0; 0]).
  split; [exact Ht | split; [exact Hp | split; [|split; [|lra]]]].
  - exact (single_positive_anchor_rows [0; 0; 0; 0]).
  - assert (Hd : Losses.default_sigma <> 0)
      by (unfold Losses.default_sigma; lra).
    rewrite (smooth_l1_single_exact
               st 0%nat (Var "sigma_sq_smooth_l1" 1 true)
               Losses.default_sigma 1%nat 1%nat 4%nat y_true y_pred
               [0; 0; 0; 0; 1] eq_refl Hd Ht Hp Hsel).
    f_equal. f_equal. simpl. lra.
Qed.

End QuadraticExamples.

(** ** The two branches of the smooth-L1 loss at the threshold *)

Section Boundary.
Import Tensor Eff.

Lemma gauss_integral_bounds (x : R) :
  0 <= x ->
  exp (- (x * x)) * x <= RiemannInt (Backend.gauss_integrable 0 x) <= x.
Proof.
  intros Hx. split.
  - replace (exp (- (x * x)) * x) with (exp (- (x * x)) * (x - 0)) by ring.
    rewrite <- (RiemannInt_P15 (RiemannInt_P14 0 x (exp (- (x * x))))).
    apply RiemannInt_P19; [exact Hx|].
    intros t Ht. unfold fct_cte, Backend.gauss.
    destruct (Req_dec_T (t * t) (x * x)) as [E|E].
    + rewrite E. apply Rle_refl.
    + left. apply exp_increasing. nra.
  - apply Rle_trans with (1 * (x - 0)); [|lra].
    rewrite <- (RiemannInt_P15 (RiemannInt_P14 0 x 1)).
    apply RiemannInt_P19; [exact Hx|].
    intros t Ht. unfold fct_cte, Backend.gauss.
    rewrite <- exp_0. left. apply exp_increasing. nra.
Qed.

Lemma sqrt_PI_bounds : 17 / 10 < sqrt PI <= 2.
Proof.
  assert (H3 : 3 < PI) by (pose proof PI2_3_2; lra).
  split.
  - apply Rsqr_incrst_0; [| lra | apply sqrt_pos].
    rewrite Rsqr_sqrt by lra. unfold Rsqr. lra.
  - apply Rsqr_incr_0; [| apply sqrt_pos | lra].
    rewrite Rsqr_sqrt by lra. unfold Rsqr. pose proof PI_4. lra.
Qed.

Lemma erf_bounds (x : R) :
  0 <= x -> exp (- (x * x)) * x <= Backend.erf x <= 20 / 17 * x.
Proof.
  intros Hx. unfold Backend.erf.
  destruct (gauss_integral_bounds x Hx) as [Hlo Hhi].
  destruct sqrt_PI_bounds as [H1 H2].
  assert (Hi : 0 <= RiemannInt (Backend.gauss_integrable 0 x)).
  { eapply Rle_trans; [|exact Hlo].
    apply Rmult_le_pos; [left; apply exp_pos | exact Hx]. }
  assert (Hq : 1 <= 2 / sqrt PI <= 20 / 17).
  { assert (Hinv : / 2 <= / sqrt PI < / (17 / 10)).
    { split.
      - apply Rinv_le_contravar; lra.
      - apply Rinv_lt_contravar; [nra | lra]. }
    unfold Rdiv. lra. }
  split; nra.
Qed.

Lemma sqrt_half_bounds : 7 / 10 <= sqrt (/ 2) <= 72 / 100.
Proof.
  split.
  - rewrite <- (sqrt_square (7 / 10)) by lra. apply sqrt_le_1_alt. lra.
  - rewrite <- (sqrt_square (72 / 100)) by lra.
    apply sqrt_le_1_alt. lra.
Qed.

(** The difference of the two branches at the threshold, for any
    [sigma_var] and any positive [sigma_squared]. *)
Lemma branch_gap_at_threshold (sigma_squared sigma : R) :
  0 < sigma_squared ->
  let d := 1.0 / sigma_squared in
  Losses.log_branch sigma_squared (- 1.0 / sigma_squared) sigma d
  - Losses.quadratic_branch sigma d
  = Backend.log
      (1.0 - Backend.erf (sqrt (Losses.smooth_l1_factor sigma) / sigma_squared))
    * (1 - / (sigma_squared ^ 2)).
Proof.
  intros Hs. cbv zeta.
  unfold Losses.log_branch, Losses.quadratic_branch. cbv zeta.
  assert (Hd : 0 <= 1.0 / sigma_squared).
  { rewrite dec_one. left. apply Rdiv_lt_0_compat; lra. }
  rewrite (pow_two _ Hd). decimals. field. lra.
Qed.

(** With [sigma_squared = 1] the two branches do meet at the threshold. *)
Lemma branches_agree_for_unit_sigma (sigma : R) :
  Losses.log_branch 1 (- 1.0 / 1) sigma (1.0 / 1)
  = Losses.quadratic_branch sigma (1.0 / 1).
Proof.
  pose proof (branch_gap_at_threshold 1 sigma ltac:(lra)) as H.
  cbv zeta in H.
  replace (1 - / 1 ^ 2) with 0 in H by field.
  rewrite Rmult_0_r in H. lra.
Qed.

(** C3, at the default [sigma = 3.0] and the initial [sigma_var = 0]: at
    the threshold [1.0 / sigma_squared = 1/9] the entry loss is the value
    of the erf/log branch, and that value lies more than 0.07 below the
    value of the quadratic branch at the same point. *)
Theorem smooth_l1_branches_differ_at_default_threshold :
  let sigma_squared := Losses.default_sigma ^ 2 in
  let d := 1.0 / sigma_squared in
  Entry.regression_loss sigma_squared 0 d 0
  = Losses.log_branch sigma_squared (- 1.0 / sigma_squared) 0 d
  /\ Losses.log_branch sigma_squared (- 1.0 / sigma_squared) 0 d
     < Losses.quadratic_branch 0 d - 0.07.
Proof.
  cbv zeta. unfold Losses.default_sigma.
  assert (H9 : 3.0 ^ 2 = 9) by (rewrite dec_three; ring).
  rewrite H9. split.
  - unfold Entry.regression_loss. cbv zeta.
    replace (1.0 / 9 - 0) with (1.0 / 9) by ring.
    assert (Ha : Rabs (1.0 / 9) = 1.0 / 9) by (apply Rabs_right; lra).
    rewrite Ha. unfold Backend.less.
    destruct (Rlt_dec (1.0 / 9) (1.0 / 9)) as [H|_]; [lra | reflexivity].
  - pose proof (branch_gap_at_threshold 9 0 ltac:(lra)) as Hgap.
    cbv zeta in Hgap.
    assert (Hf : Losses.smooth_l1_factor 0 = / 2).
    { unfold Losses.smooth_l1_factor. rewrite exp_0. lra. }
    rewrite Hf in Hgap.
    destruct sqrt_half_bounds as [Hr1 Hr2].
    set (x := sqrt (/ 2) / 9) in *.
    assert (Hx : 7 / 90 <= x <= 8 / 100) by (unfold x; lra).
    destruct (erf_bounds x ltac:(lra)) as [He1 He2].
    pose proof (exp_ineq1_le (- (x * x))) as Hexp.
    assert (Hxx : x * x <= 64 / 10000) by nra.
    assert (Hu1 : 772 / 10000 <= Backend.erf x) by nra.
    assert (Hu2 : Backend.erf x <= 1 / 10) by lra.
    assert (HL : Backend.log (1.0 - Backend.erf x) <= - (772 / 10000)).
    { unfold Backend.log.
      pose proof (ln_upper (1.0 - Backend.erf x) ltac:(lra)). lra. }
    set (L := Backend.log (1.0 - Backend.erf x)) in *.
    replace (1 - / 9 ^ 2) with (80 / 81) in Hgap by field.
    lra.
Qed.

End Boundary.

(** * Further properties of the two losses *)

(** ** The anchors that enter the focal loss *)

Section Unignored.
Import Tensor Eff.

Lemma gather_by_state (c : R -> bool) (y_true y_pred : tensor3) :
  same_rows y_true y_pred ->
  let indices := tf_where (map2d c (slice_last y_true)) in
  let selected := filter (fun a => c (state a)) (anchors y_true y_pred) in
  gather_nd y_pred indices = map snd selected
  /\ gather_nd (slice_init y_true) indices
     = map (fun a => removelast (fst a)) selected.
Proof.
  intros H. cbv zeta. unfold slice_last, slice_init.
  fold (map2d (fun r : tensor1 => last r 0) y_true).
  fold (map2d (@removelast R) y_true).
  rewrite map2d_map2d. split.
  - rewrite gather_nd_where by now apply same_rows_map2d_l.
    rewrite concat_map2d, masked_map. reflexivity.
  - rewrite gather_nd_where
      by (apply same_rows_map2d_l, same_rows_map2d_r, same_rows_refl).
    rewrite !concat_map2d.
    exact (masked_map_both (fun r : tensor1 => c (last r 0))
                           (@removelast R) (concat y_true) (concat y_pred)
                           (same_rows_concat _ _ H)).
Qed.

Lemma _focal_selected (st : store) (sigma_var : ref) (v : variable)
      (alpha gamma cutoff : R) (y_true y_pred : tensor3) :
  nth_error st sigma_var = Some v ->
  same_rows y_true y_pred ->
  Losses._focal alpha gamma cutoff sigma_var y_true y_pred st
  = (Ok (sum (map (fun a => zip_with
                              (Entry.cls_loss alpha gamma cutoff (var_value v))
                              (removelast (fst a)) (snd a))
                  (filter unignored (anchors y_true y_pred)))
         / Losses.focal_normalizer (slice_last y_true)), st).
Proof.
  intros Hv Hrows. rewrite (_focal_eval _ _ _ _ _ _ _ _ Hv).
  destruct (gather_by_state (fun a => Backend.not_equal a (-1))
                            y_true y_pred Hrows) as [Hp Hl].
  unfold focal_indices. rewrite Hp, Hl.
  unfold zip2d. rewrite zip_with_same. reflexivity.
Qed.

(** X1. On a batch of the documented shape [_focal] gathers, from the
    labels and from the predictions, the rows of the same anchors: those
    whose state is not -1, background anchors included.  The value returned
    is the sum of the entry losses of these anchors over the normalizer, so
    the labels and predictions of an ignored anchor do not enter it. *)
Theorem focal_uses_unignored_anchors_only :
  forall (st : store) (sigma_var : ref) (v : variable)
         alpha gamma cutoff B N C y_true y_pred,
    nth_error st sigma_var = Some v ->
    shape3 y_true B N (S C) -> shape3 y_pred B N C ->
    let selected := filter unignored (anchors y_true y_pred) in
    let anchor_loss (a : tensor1 * tensor1) :=
      zip_with (Entry.cls_loss alpha gamma cutoff (var_value v))
               (removelast (fst a)) (snd a) in
    Forall (fun a => state a <> -1) selected
    /\ gather_nd (slice_init y_true) (focal_indices y_true)
       = map (fun a => removelast (fst a)) selected
    /\ gather_nd y_pred (focal_indices y_true) = map snd selected
    /\ Losses._focal alpha gamma cutoff sigma_var y_true y_pred st
       = (Ok (sum (map anchor_loss selected)
              / Losses.focal_normalizer (slice_last y_true)), st).
Proof.
  intros st sigma_var v alpha gamma cutoff B N C y_true y_pred Hv Ht Hp.
  cbv zeta.
  assert (Hrows : same_rows y_true y_pred)
    by exact (shape3_same_rows _ _ _ _ _ _ Ht Hp).
  destruct (gather_by_state (fun a => Backend.not_equal a (-1))
                            y_true y_pred Hrows) as [Hpred Hlab].
  split; [|split; [exact Hlab | split; [exact Hpred|]]].
  - eapply Forall_impl; [|apply filter_Forall].
    intros a Ha. unfold unignored, Backend.not_equal in Ha.
    apply equal_false. now destruct (Backend.equal (state a) (-1)).
  - now apply _focal_selected.
Qed.

Lemma focal_uses_unignored_anchors_only_witness :
  let st := [Var "sigma_sq_focal" 0 true] in
  let y_true := [[[1; 1]; [0; 0]; [1; -1]]] in
  let y_pred := [[[0.75]; [0.25]; [0.5]]] in
  Losses._focal 0.1 2.0 0.5 0%nat y_true y_pred st
  = (Ok (sum (map (fun a => zip_with (Entry.cls_loss 0.1 2.0 0.5 0)
                                     (removelast (fst a)) (snd a))
                  (filter unignored (anchors y_true y_pred)))
         / Losses.focal_normalizer (slice_last y_true)), st).
Proof.
  intros st y_true y_pred.
  apply (focal_uses_unignored_anchors_only
           st 0%nat (Var "sigma_sq_focal" 0 true) 0.1 2.0 0.5
           1%nat 3%nat 1%nat y_true y_pred eq_refl).
  - split; [reflexivity|]. repeat constructor.
  - split; [reflexivity|]. repeat constructor.
Defined.

End Unignored.

(** ** The focal loss at the initial [sigma_var] and on confident
    predictions *)

Section FocalSpecial.
Import Tensor Eff.





Lemma greater_of_lt (x y : R) : y < x -> Backend.greater x y = true.
Proof.
  intros H. unfold Backend.greater. now destruct (Rlt_dec y x).
Qed.

Lemma cls_loss_confident (alpha gamma cutoff sigma l c : R) :
  0 < gamma -> confident cutoff l c ->
  Entry.cls_loss alpha gamma cutoff sigma l c = 0.
Proof.
  intros Hg Hc. unfold Entry.cls_loss, Entry.focal_weight.
  assert (Hw : Entry.focal_weight_sigma cutoff sigma l c = 0).
  { unfold Entry.focal_weight_sigma, confident in *.
    pose proof (exp_pos (- sigma)) as He.
    destruct (Backend.greater l cutoff); subst c.
    - replace (1 - 1) with 0 by ring. rewrite (pow_zero_base _ He). ring.
    - replace (1 - (1 - 0)) with 0 by ring.
      rewrite (pow_zero_base _ He). ring. }
  rewrite Hw, (pow_zero_base _ Hg). ring.
Qed.

Lemma sum1_zeros (r : tensor1) : Forall (fun x => x = 0) r -> sum1 r = 0.
Proof.
  unfold sum1. induction 1 as [|x r Hx _ IH]; simpl; [reflexivity|].
  rewrite Hx, IH. ring.
Qed.

Lemma zip_with_Forall2 {A B : Type} (P : A -> B -> Prop) (Q : R -> Prop)
      (f : A -> B -> R) (r : list A) (r' : list B) :
  (forall x y, P x y -> Q (f x y)) ->
  Forall2 P r r' -> Forall Q (zip_with f r r').
Proof.
  intros Hf. induction 1 as [|x y r r' Hxy _ IH]; simpl; constructor;
    [now apply Hf | exact IH].
Qed.

(** X3. For a positive gamma, a [sigma_var] between -80 and 80 (where
    float32 [exp(-sigma_var)] is finite and not zero) and labels in [0,1],
    a batch in which every entry of every kept anchor is predicted with
    full confidence (1 where the label exceeds the cutoff, 0 elsewhere)
    has focal loss exactly 0, also where [sigma_var] is negative: the
    focal weight of such an entry is 0. *)
Theorem focal_confident_predictions_have_zero_loss :
  forall (st : store) (sigma_var : ref) (v : variable)
         alpha gamma cutoff B N C y_true y_pred,
    nth_error st sigma_var = Some v ->
    0 < gamma ->
    -80 <= var_value v <= 80 ->
    shape3 y_true B N (S C) -> shape3 y_pred B N C ->
    all3 (fun l => 0 <= l <= 1) (slice_init y_true) ->
    Forall (fun a => Forall2 (confident cutoff) (removelast (fst a)) (snd a))
           (filter unignored (anchors y_true y_pred)) ->
    Losses._focal alpha gamma cutoff sigma_var y_true y_pred st = (Ok 0, st).
Proof.
  intros st sigma_var v alpha gamma cutoff B N C y_true y_pred
         Hv Hg _ Ht Hp _ Hall.
  assert (Hrows : same_rows y_true y_pred)
    by exact (shape3_same_rows _ _ _ _ _ _ Ht Hp).
  rewrite (_focal_selected _ _ _ _ _ _ _ _ Hv Hrows).
  assert (Hz : sum (map (fun a => zip_with
                                    (Entry.cls_loss alpha gamma cutoff
                                                    (var_value v))
                                    (removelast (fst a)) (snd a))
                        (filter unignored (anchors y_true y_pred))) = 0).
  { unfold sum. apply sum1_zeros. rewrite map_map. apply Forall_map.
    eapply Forall_impl; [|exact Hall]. intros a Ha. simpl.
    apply sum1_zeros.
    apply (zip_with_Forall2 (confident cutoff) (fun x => x = 0)); [|exact Ha].
    intros l c Hc. now apply cls_loss_confident. }
  rewrite Hz. f_equal. f_equal. unfold Rdiv. ring.
Qed.

Lemma focal_confident_predictions_have_zero_loss_witness :
  let st := [Var "sigma_sq_focal" (-1) true] in
  Losses._focal 0.1 2.0 0.5 0%nat
                [[[1; 0; 1]; [0; 0; 0]; [1; 1; -1]]]
                [[[1; 0]; [0; 0]; [0.5; 0.5]]] st
  = (Ok 0, st).
Proof.
  intros st.
  apply (focal_confident_predictions_have_zero_loss
           st 0%nat (Var "sigma_sq_focal" (-1) true) 0.1 2.0 0.5
           1%nat 3%nat 2%nat _ _ eq_refl).
  - lra.
  - simpl. lra.
  - split; [reflexivity|]. repeat constructor.
  - split; [reflexivity|]. repeat constructor.
  - repeat constructor; simpl; lra.
  - unfold anchors, unignored, state. simpl.
    rewrite (not_equal_true 1 (-1)) by lra.
    rewrite (not_equal_true 0 (-1)) by lra.
    unfold Backend.not_equal.
    rewrite (proj2 (equal_true (-1) (-1)) eq_refl). simpl.
    repeat constructor; unfold confident.
    + rewrite (greater_of_lt 1 0.5) by lra. reflexivity.
    + rewrite (greater_false 0 0.5) by lra. reflexivity.
    + rewrite (greater_false 0 0.5) by lra. reflexivity.
    + rewrite (greater_false 0 0.5) by lra. reflexivity.
Defined.

End FocalSpecial.

(** ** Joining two batches *)

Section Batches.
Import Tensor Eff.

Lemma combine_app_same {A B : Type} (l1 l2 : list A) (k1 k2 : list B) :
  length l1 = length k1 ->
  combine (l1 ++ l2) (k1 ++ k2) = combine l1 k1 ++ combine l2 k2.
Proof.
  revert k1. induction l1 as [|x l1 IH]; intros [|y k1] H; simpl in *;
    try discriminate; [reflexivity|].
  injection H as H. now rewrite IH.
Qed.

Lemma anchors_app (y_true1 y_true2 y_pred1 y_pred2 : tensor3) :
  same_rows y_true1 y_pred1 ->
  anchors (y_true1 ++ y_true2) (y_pred1 ++ y_pred2)
  = anchors y_true1 y_pred1 ++ anchors y_true2 y_pred2.
Proof.
  intros H. unfold anchors. rewrite !concat_app.
  apply combine_app_same. now apply same_rows_concat.
Qed.

Lemma sum1_app (r r' : tensor1) : sum1 (r ++ r') = sum1 r + sum1 r'.
Proof.
  unfold sum1. induction r as [|x r IH]; simpl; [ring|]. rewrite IH. ring.
Qed.

Lemma sum_app (m m' : tensor2) : sum (m ++ m') = sum m + sum m'.
Proof. unfold sum. now rewrite map_app, sum1_app. Qed.

Lemma same_rows_app {A B : Type} (m1 m2 : list (list A))
      (t1 t2 : list (list B)) :
  same_rows m1 t1 -> same_rows m2 t2 -> same_rows (m1 ++ m2) (t1 ++ t2).
Proof. unfold same_rows. apply Forall2_app. Qed.

Lemma count_positive_app (y_true1 y_true2 : tensor3) :
  count_positive (slice_last (y_true1 ++ y_true2))
  = (count_positive (slice_last y_true1)
     + count_positive (slice_last y_true2))%nat.
Proof.
  unfold count_positive, slice_last.
  now rewrite map_app, concat_app, filter_app, length_app.
Qed.

Lemma smooth_l1_indices_count (y_true : tensor3) :
  length (smooth_l1_indices y_true) = count_positive (slice_last y_true).
Proof.
  unfold smooth_l1_indices, count_positive. apply length_tf_where_map2d.
Qed.

Lemma INR_max_one_pos (k : nat) : 1 <= INR (Nat.max 1 k).
Proof.
  replace 1 with (INR 1) by reflexivity. apply le_INR. lia.
Qed.

Lemma div_mul_cancel (s n : R) : 1 <= n -> s / n * n = s.
Proof. intros H. field. lra. Qed.

(** X4. The sums of the two losses are additive along the batch axis, the
    normalizers are not: for two batches with the same number of anchors
    per image, the loss of the joined batch times its normalizer is the
    sum of the two losses each times its own normalizer, and the number of
    positive anchors of the joined batch is the sum of the two numbers.
    So the loss of a batch is a combination of the losses of its parts
    weighted by their positive anchors, not their mean. *)
Theorem losses_of_joined_batches :
  forall (st : store) (sigma_var : ref) (v : variable)
         B1 B2 N C y_true1 y_pred1 y_true2 y_pred2,
    nth_error st sigma_var = Some v ->
    shape3 y_true1 B1 N (S C) -> shape3 y_pred1 B1 N C ->
    shape3 y_true2 B2 N (S C) -> shape3 y_pred2 B2 N C ->
    let y_true := y_true1 ++ y_true2 in
    let y_pred := y_pred1 ++ y_pred2 in
    count_positive (slice_last y_true)
    = (count_positive (slice_last y_true1)
       + count_positive (slice_last y_true2))%nat
    /\ (forall alpha gamma cutoff,
           exists l1 l2 l : R,
             Losses._focal alpha gamma cutoff sigma_var y_true1 y_pred1 st
             = (Ok l1, st)
             /\ Losses._focal alpha gamma cutoff sigma_var y_true2 y_pred2 st
                = (Ok l2, st)
             /\ Losses._focal alpha gamma cutoff sigma_var y_true y_pred st
                = (Ok l, st)
             /\ l * Losses.focal_normalizer (slice_last y_true)
                = l1 * Losses.focal_normalizer (slice_last y_true1)
                  + l2 * Losses.focal_normalizer (slice_last y_true2))
    /\ (forall sigma_squared,
           sigma_squared <> 0 ->
           exists l1 l2 l : R,
             Losses._smooth_l1 sigma_squared sigma_var y_true1 y_pred1 st
             = (Ok l1, st)
             /\ Losses._smooth_l1 sigma_squared sigma_var y_true2 y_pred2 st
                = (Ok l2, st)
             /\ Losses._smooth_l1 sigma_squared sigma_var y_true y_pred st
                = (Ok l, st)
             /\ l * INR (Nat.max 1 (count_positive (slice_last y_true)))
                = l1 * INR (Nat.max 1 (count_positive (slice_last y_true1)))
                  + l2 * INR (Nat.max 1
                                      (count_positive (slice_last y_true2)))).
Proof.
  intros st sigma_var v B1 B2 N C y_true1 y_pred1 y_true2 y_pred2
         Hv Ht1 Hp1 Ht2 Hp2 y_true y_pred.
  assert (Hr1 : same_rows y_true1 y_pred1)
    by exact (shape3_same_rows _ _ _ _ _ _ Ht1 Hp1).
  assert (Hr2 : same_rows y_true2 y_pred2)
    by exact (shape3_same_rows _ _ _ _ _ _ Ht2 Hp2).
  assert (Hr : same_rows y_true y_pred) by now apply same_rows_app.
  assert (Ha : anchors y_true y_pred
               = anchors y_true1 y_pred1 ++ anchors y_true2 y_pred2)
    by now apply anchors_app.
  split; [apply count_positive_app | split].
  - intros alpha gamma cutoff.
    rewrite (_focal_selected _ _ _ _ _ _ _ _ Hv Hr1),
      (_focal_selected _ _ _ _ _ _ _ _ Hv Hr2),
      (_focal_selected _ _ _ _ _ _ _ _ Hv Hr).
    eexists _, _, _. repeat split.
    rewrite Ha, filter_app, map_app, sum_app.
    pose proof (focal_normalizer_pos (slice_last y_true)).
    pose proof (focal_normalizer_pos (slice_last y_true1)).
    pose proof (focal_normalizer_pos (slice_last y_true2)).
    rewrite !div_mul_cancel by assumption. reflexivity.
  - intros sigma_squared Hs.
    assert (Hsel : forall yt yp : tensor3,
               same_rows yt yp ->
               Losses._smooth_l1 sigma_squared sigma_var yt yp st
               = (Ok (sum (map (fun a =>
                                  zip_with (Entry.regression_loss
                                              sigma_squared (var_value v))
                                           (snd a) (removelast (fst a)))
                               (filter positive (anchors yt yp)))
                      / INR (Nat.max 1 (count_positive (slice_last yt)))),
                  st)).
    { intros yt yp Hrows.
      rewrite (_smooth_l1_eval _ _ _ _ _ _ Hv Hs), smooth_l1_indices_count.
      destruct (smooth_l1_selects_positive_anchors yt yp Hrows) as [E1 E2].
      rewrite E1, E2. unfold zip2d. now rewrite zip_with_same. }
    rewrite (Hsel _ _ Hr1), (Hsel _ _ Hr2), (Hsel _ _ Hr).
    eexists _, _, _. repeat split.
    rewrite Ha, filter_app, map_app, sum_app.
    pose proof (INR_max_one_pos (count_positive (slice_last y_true))).
    pose proof (INR_max_one_pos (count_positive (slice_last y_true1))).
    pose proof (INR_max_one_pos (count_positive (slice_last y_true2))).
    rewrite !div_mul_cancel by assumption. reflexivity.
Qed.

Lemma losses_of_joined_batches_witness :
  let st := [Var "sigma_var" 0 true] in
  let y_true1 := [[[1; 1]; [0; 0]]] in
  let y_true2 := [[[0; -1]; [1; 1]]] in
  count_positive (slice_last (y_true1 ++ y_true2))
  = (count_positive (slice_last y_true1)
     + count_positive (slice_last y_true2))%nat.
Proof.
  intros st y_true1 y_true2.
  apply (losses_of_joined_batches
           st 0%nat (Var "sigma_var" 0 true) 1%nat 1%nat 2%nat 1%nat
           [[[1; 1]; [0; 0]]] [[[0.75]; [0.25]]]
           [[[0; -1]; [1; 1]]] [[[0.5]; [0.5]]] eq_refl).
  - split; [reflexivity|]. repeat constructor.
  - split; [reflexivity|]. repeat constructor.
  - split; [reflexivity|]. repeat constructor.
  - split; [reflexivity|]. repeat constructor.
Defined.

End Batches.

(** ** Errors, symmetry and the normalizers *)

Section RegressionEdges.
Import Tensor Eff.

(** X5. On inputs of the documented shape the inner function
    [_smooth_l1] raises ZeroDivisionError exactly when the
    [sigma_squared] it is closed over is 0, and it leaves the store as it
    was.  In particular [smooth_l1] with [sigma = 0] constructs without
    error, and the loss function it returns raises on every such input. *)
Theorem smooth_l1_zero_division_exactly_for_zero_sigma_squared :
  forall (st : store) (sigma_var : ref) (v : variable) B N C
         (y_true y_pred : tensor3),
    nth_error st sigma_var = Some v ->
    shape3 y_true B N (S C) -> shape3 y_pred B N C ->
    (forall sigma_squared,
        snd (Losses._smooth_l1 sigma_squared sigma_var y_true y_pred st) = st
        /\ (fst (Losses._smooth_l1 sigma_squared sigma_var y_true y_pred st)
            = Raise ZeroDivisionError
            <-> sigma_squared = 0))
    /\ (exists (loss : Losses.loss_function) (r : ref) (st1 : store),
           Losses.smooth_l1 0 None st = (Ok (loss, r), st1)
           /\ loss y_true y_pred st1 = (Raise ZeroDivisionError, st1)).
Proof.
  intros st sigma_var v B N C y_true y_pred Hv _ _. split.
  - intros sigma_squared.
    destruct (Req_dec_T sigma_squared 0) as [-> | Hs].
    + rewrite (_smooth_l1_zero _ _ _ _ _ Hv). simpl.
      split; [reflexivity | split; reflexivity].
    + rewrite (_smooth_l1_eval _ _ _ _ _ _ Hv Hs). simpl.
      split; [reflexivity | split; [discriminate | intros H; now elim Hs]].
  - exists (Losses._smooth_l1 (0 ^ 2) (length st)), (length st),
      (st ++ [Var "sigma_sq_smooth_l1" 0 true]).
    split; [reflexivity|].
    replace (0 ^ 2) with 0 by ring.
    apply (_smooth_l1_zero _ _ _ _ (Var "sigma_sq_smooth_l1" 0 true)).
    rewrite nth_error_app2 by lia. now rewrite Nat.sub_diag.
Qed.

Lemma smooth_l1_zero_division_exactly_for_zero_sigma_squared_witness :
  let st := [Var "sigma_sq_smooth_l1" 0 true] in
  fst (Losses._smooth_l1 0 0%nat [[[1; 2; 3; 4; 1]]] [[[1; 2; 3; 4]]] st)
  = Raise ZeroDivisionError.
Proof.
  intros st.
  apply (proj2 (proj1 (smooth_l1_zero_division_exactly_for_zero_sigma_squared
                         st 0%nat (Var "sigma_sq_smooth_l1" 0 true)
                         1%nat 1%nat 4%nat
                         [[[1; 2; 3; 4; 1]]] [[[1; 2; 3; 4]]] eq_refl
                         ltac:(split; [reflexivity | repeat constructor])
                         ltac:(split; [reflexivity | repeat constructor]))
                      0)).
  reflexivity.
Defined.

Lemma zip_with_swap {A B C : Type} (f : A -> B -> C) (l : list A)
      (l' : list B) :
  zip_with f l l' = zip_with (fun y x => f x y) l' l.
Proof.
  revert l'. induction l as [|x l IH]; intros [|y l']; simpl; try reflexivity.
  now rewrite IH.
Qed.

Lemma zip2d_swap {A B C : Type} (f : A -> B -> C) (m : list (list A))
      (m' : list (list B)) :
  zip2d f m m' = zip2d (fun y x => f x y) m' m.
Proof.
  unfold zip2d. rewrite zip_with_swap. apply zip_with_ext.
  intros r r'. apply zip_with_swap.
Qed.

(** X6. [regression_loss] depends on a prediction and its target only
    through the absolute value of their difference: exchanging the two
    tensors changes neither the values nor the error. *)
Theorem regression_loss_symmetric :
  forall (sigma_squared sigma : R) (regression regression_target : tensor2)
         (st : store),
    Losses.regression_loss sigma_squared sigma regression regression_target st
    = Losses.regression_loss sigma_squared sigma
                             regression_target regression st.
Proof.
  intros sigma_squared sigma regression regression_target st.
  destruct (Req_dec_T sigma_squared 0) as [-> | Hs].
  - unfold Losses.regression_loss, bind. cbv zeta.
    now rewrite !py_div_zero.
  - rewrite !(regression_loss_eval _ _ _ _ _ Hs).
    rewrite (zip2d_swap _ regression regression_target).
    do 2 f_equal. apply zip2d_ext. intros t p.
    unfold Entry.regression_loss. cbv zeta.
    now rewrite (Rabs_minus_sym p t).
Qed.

(** X8. On the same anchor states the two losses divide by the same
    number: the float maximum of 1.0 and the count that [_focal] takes is
    the integer maximum of 1 and the count that [_smooth_l1] takes. *)
Theorem losses_share_normalizer :
  forall (y_true : tensor3),
    Losses.focal_normalizer (slice_last y_true)
    = INR (Nat.max 1 (shape0 (smooth_l1_indices y_true))).
Proof.
  intros y_true. rewrite focal_normalizer_count.
  unfold shape0. rewrite smooth_l1_indices_count.
  set (k := count_positive (slice_last y_true)).
  destruct (Nat.ltb_spec k 1) as [Hk|Hk].
  - replace k with 0%nat by lia. reflexivity.
  - now rewrite Nat.max_r by lia.
Qed.

End RegressionEdges.

(** ** The shape of the smooth-L1 entry loss *)

Section RegressionShape.
Import Tensor Eff.







Lemma log_term_default_bound :
  Backend.log (1.0 - Backend.erf (sqrt (Losses.smooth_l1_factor 0) / 9))
  <= - (772 / 10000).
Proof.
  assert (Hf : Losses.smooth_l1_factor 0 = / 2).
  { unfold Losses.smooth_l1_factor. rewrite exp_0. lra. }
  rewrite Hf.
  destruct sqrt_half_bounds as [Hr1 Hr2].
  set (x := sqrt (/ 2) / 9) in *.
  assert (Hx : 7 / 90 <= x <= 8 / 100) by (unfold x; lra).
  destruct (erf_bounds x ltac:(lra)) as [He1 He2].
  pose proof (exp_ineq1_le (- (x * x))) as Hexp.
  assert (Hxx : x * x <= 64 / 10000) by nra.
  assert (Hu1 : 772 / 10000 <= Backend.erf x) by nra.
  unfold Backend.log.
  pose proof (ln_upper (1.0 - Backend.erf x) ltac:(lra)). lra.
Qed.

(** X10. With the default [sigma = 3.0] and [sigma_var] at its initial
    value 0, every entry whose absolute difference lies between the
    threshold 1/9 and 8 has a negative loss, while every entry below the
    threshold has a loss that is not negative. *)
Theorem regression_loss_sign_at_defaults :
  forall (p t : R),
    (1.0 / 9 <= Rabs (p - t) <= 8 ->
     Entry.regression_loss (Losses.default_sigma ^ 2) 0 p t < 0)
    /\ (Rabs (p - t) < 1.0 / 9 ->
        0 <= Entry.regression_loss (Losses.default_sigma ^ 2) 0 p t).
Proof.
  intros p t. unfold Losses.default_sigma.
  assert (H9 : 3.0 ^ 2 = 9) by (rewrite dec_three; ring).
  rewrite H9. unfold Entry.regression_loss. cbv zeta.
  set (d := Rabs (p - t)).
  assert (Hd : 0 <= d) by apply Rabs_pos.
  split; intros H.
  - unfold Backend.less. destruct (Rlt_dec d (1.0 / 9)); [lra|].
    unfold Losses.log_branch. cbv zeta.
    pose proof log_term_default_bound as HL.
    set (L := Backend.log _) in *.
    assert (Hf : Losses.smooth_l1_factor 0 = / 2).
    { unfold Losses.smooth_l1_factor. rewrite exp_0. lra. }
    rewrite Hf, dec_neg_one, dec_half.
    replace (- (1) / 9 * L * d + L + / 2 / 9 ^ 2 + / 2 * 0)
      with (L * (1 - d / 9) + / 162) by field.
    nra.
  - rewrite (proj2 (less_true _ _) H).
    unfold Losses.quadratic_branch. cbv zeta.
    rewrite (pow_two _ Hd), smooth_l1_factor_eq, dec_half.
    pose proof (exp_pos (- 0)). nra.
Qed.

Lemma regression_loss_sign_at_defaults_witness :
  Entry.regression_loss (Losses.default_sigma ^ 2) 0 1 0 < 0.
Proof.
  apply (proj1 (regression_loss_sign_at_defaults 1 0)).
  rewrite Rminus_0_r, Rabs_right by lra. lra.
Defined.

End RegressionShape.

(** ** Building the two losses one after the other *)

Section TwoLosses.
Import Tensor Eff.

Lemma assign_middle (pre post : store) (v : variable) (x : R) :
  assign (length pre) x (pre ++ v :: post)
  = pre ++ Var (var_name v) x (var_trainable v) :: post.
Proof.
  assert (Hn : nth_error (pre ++ v :: post) (length pre) = Some v)
    by (rewrite nth_error_app2, Nat.sub_diag by lia; reflexivity).
  assert (Hf : firstn (length pre) (pre ++ v :: post) = pre)
    by (rewrite firstn_app, Nat.sub_diag, firstn_all; apply app_nil_r).
  assert (Hs : skipn (S (length pre)) (pre ++ v :: post) = post).
  { replace (S (length pre)) with (length (pre ++ [v]))
      by (rewrite length_app; simpl; lia).
    replace (pre ++ v :: post) with ((pre ++ [v]) ++ post)
      by (now rewrite <- app_assoc).
    now rewrite skipn_app, Nat.sub_diag, skipn_all. }
  unfold assign. rewrite Hn, Hf, Hs. reflexivity.
Qed.

(** X9. Calling [focal] and then [smooth_l1], both without a
    [sigma_var], appends two variables, in this order, and leaves the
    variables that were in the store as they were; each loss function is
    closed over its own variable, and a value assigned to one of the two
    is not seen through the other.  Passing the variable that [focal]
    returned to [smooth_l1] creates no second variable: the two loss
    functions are then closed over the same one. *)
Theorem two_constructors_in_sequence :
  forall (st : store) (alpha gamma cutoff sigma : R),
    let v1 := Var "sigma_sq_focal" 0 true in
    let v2 := Var "sigma_sq_smooth_l1" 0 true in
    let r1 := length st in
    let r2 := S (length st) in
    (p1 <- Losses.focal alpha gamma cutoff None ;;
     p2 <- Losses.smooth_l1 sigma None ;;
     ret (p1, p2)) st
    = (Ok ((Losses._focal alpha gamma cutoff r1, r1),
           (Losses._smooth_l1 (sigma ^ 2) r2, r2)), st ++ [v1; v2])
    /\ (forall x,
           read r1 (assign r2 x (st ++ [v1; v2]))
           = (Ok 0, assign r2 x (st ++ [v1; v2]))
           /\ read r2 (assign r2 x (st ++ [v1; v2]))
              = (Ok x, assign r2 x (st ++ [v1; v2]))
           /\ read r2 (assign r1 x (st ++ [v1; v2]))
              = (Ok 0, assign r1 x (st ++ [v1; v2]))
           /\ firstn (length st) (assign r2 x (st ++ [v1; v2])) = st)
    /\ (p1 <- Losses.focal alpha gamma cutoff None ;;
        p2 <- Losses.smooth_l1 sigma (Some (snd p1)) ;;
        ret (p1, p2)) st
       = (Ok ((Losses._focal alpha gamma cutoff r1, r1),
              (Losses._smooth_l1 (sigma ^ 2) r1, r1)), st ++ [v1]).
Proof.
  intros st alpha gamma cutoff sigma v1 v2 r1 r2.
  assert (Hlen : length (st ++ [v1]) = r2)
    by (rewrite length_app; simpl; unfold r2; lia).
  assert (Happ : (st ++ [v1]) ++ [v2] = st ++ [v1; v2])
    by (now rewrite <- app_assoc).
  split; [|split].
  - unfold Losses.focal, Losses.smooth_l1, bind, ret, tf_Variable.
    fold v1 v2. now rewrite Hlen, Happ.
  - intros x.
    assert (E2 : assign r2 x (st ++ [v1; v2])
                 = st ++ [v1; Var "sigma_sq_smooth_l1" x true]).
    { rewrite <- Happ, <- Hlen, (assign_middle (st ++ [v1]) [] v2 x).
      now rewrite <- app_assoc. }
    assert (E1 : assign r1 x (st ++ [v1; v2])
                 = st ++ [Var "sigma_sq_focal" x true; v2])
      by apply (assign_middle st [v2] v1 x).
    rewrite E1, E2. unfold read, r1, r2.
    repeat split.
    + now rewrite nth_error_app2, Nat.sub_diag by lia.
    + rewrite nth_error_app2 by lia.
      now replace (S (length st) - length st)%nat with 1%nat by lia.
    + rewrite nth_error_app2 by lia.
      now replace (S (length st) - length st)%nat with 1%nat by lia.
    + now rewrite firstn_app, Nat.sub_diag, firstn_all, app_nil_r.
  - unfold Losses.focal, Losses.smooth_l1, bind, ret, tf_Variable.
    reflexivity.
Qed.

End TwoLosses.
